(** * SSDHead (mmdet/models/anchor_heads/ssd_head.py)

    A shallow embedding of the anchor derivation performed by
    [SSDHead.__init__], of the hard-negative-mining loss [SSDHead.loss_single],
    of the batch loss [SSDHead.loss] and of [SSDHead._balance_losses].

    Conventions.  Python integers are [Z]; Python/torch floating point values
    are idealised as exact rationals [Q] (the loss balancer, which needs
    [exp], works over [R]); a Python exception is the [Raise] branch of
    [result].  Tensors are lists (of lists). *)

From Stdlib Require Import String.
From Stdlib Require Import List ZArith QArith Qround Lia Bool.
From Stdlib Require Import Permutation Sorted.
From Stdlib Require Import Reals Psatz.
Import ListNotations.

(* ================================================================== *)
(** * Python run-time: exceptions, [int()], [range], list operations   *)
(* ================================================================== *)

Module Py.

Inductive exn : Type :=
| AssertionError (msg : string)
| IndexError
| KeyError
| ValueError
| OverflowError
| ZeroDivisionError
| UnboundLocalError
| RuntimeError.

Inductive result (A : Type) : Type :=
| Ok (a : A)
| Raise (e : exn).
Arguments Ok {A} a.
Arguments Raise {A} e.

Definition bind {A B} (m : result A) (f : A -> result B) : result B :=
  match m with
  | Ok a => f a
  | Raise e => Raise e
  end.

Definition raises {A} (m : result A) : Prop := exists e, m = Raise e.
Definition returns {A} (m : result A) : Prop := exists a, m = Ok a.

(** [assert c] and [assert c, msg]. *)
Definition assert_msg (c : bool) (msg : string) : result unit :=
  if c then Ok tt else Raise (AssertionError msg).
Definition assert (c : bool) : result unit := assert_msg c EmptyString.

(** A [for] loop that builds a list and stops at the first exception. *)
Fixpoint mapM {A B} (f : A -> result B) (l : list A) : result (list B) :=
  match l with
  | [] => Ok []
  | x :: t =>
      match f x with
      | Raise e => Raise e
      | Ok y => match mapM f t with
                | Raise e => Raise e
                | Ok ys => Ok (y :: ys)
                end
      end
  end.

(** [l[k]] for a non-negative index. *)
Definition getitem {A} (l : list A) (k : nat) : result A :=
  match nth_error l k with
  | Some x => Ok x
  | None => Raise IndexError
  end.

(** [int(x)] of a float: truncation toward zero. *)
Definition py_int (q : Q) : Z := Z.quot (Qnum q) (Zpos (Qden q)).

(** Length of [range(start, stop, step)], as CPython computes it. *)
Definition range_len (start stop step : Z) : Z :=
  if (0 <? step)%Z then
    if (start <? stop)%Z then ((stop - start - 1) / step + 1)%Z else 0%Z
  else if (step <? 0)%Z then
    if (stop <? start)%Z then ((start - stop - 1) / (- step) + 1)%Z else 0%Z
  else 0%Z.

Definition range_items (start stop step : Z) : list Z :=
  map (fun i => (start + Z.of_nat i * step)%Z)
      (seq 0 (Z.to_nat (range_len start stop step))).

(** [range(start, stop, step)]: a zero step is a [ValueError]. *)
Definition py_range (start stop step : Z) : result (list Z) :=
  if (step =? 0)%Z then Raise ValueError
  else Ok (range_items start stop step).

(** [l.insert(i, x)] for [i >= 0]: past the end it appends. *)
Definition py_insert {A} (i : nat) (x : A) (l : list A) : list A :=
  firstn i l ++ x :: skipn i l.

End Py.
Import Py.

Declare Scope py_scope.
Delimit Scope py_scope with py.
Notation "x <- m ;; k" := (bind m (fun x => k))
  (at level 61, m at next level, right associativity) : py_scope.
Notation "m ;;; k" := (bind m (fun _ => k))
  (at level 61, right associativity) : py_scope.

(* ================================================================== *)
(** * Anchor derivation in [SSDHead.__init__]                           *)
(* ================================================================== *)

Module Anchors.
Local Open Scope Z_scope.
Local Open Scope py_scope.

Inductive stride : Type :=
| StrideInt (s : Z)
| StrideTuple (sx sy : Z).

(** The constructor arguments the anchor derivation reads. *)
Record config : Type := {
  input_size : Z;
  num_classes : Z;
  in_channels : list Z;
  anchor_strides : list stride;
  basesize_ratio_range : Q * Q;
  anchor_ratios : list (list Q);
  anchor_heights : list (list Q);
  anchor_widths : list (list Q);
  depthwise_heads : bool;
  depthwise_heads_activations : string
}.

(** A scale of the ratio path: [1.] or [np.sqrt(max_size / min_size)],
    kept symbolic. *)
Inductive scale : Type :=
| ScaleOne
| ScaleSqrt (max_size min_size : Z).

(** A base anchor, named by what it is generated from. *)
Inductive base_anchor : Type :=
| ScaleRatio (base_size : Z) (s : scale) (ratio : Q)
| WidthHeight (w h : Q).

Record AnchorGenerator : Type := {
  base_anchors : list base_anchor;
  ctr : Q * Q
}.

(** Modelled from the spec: [mmdet.core.AnchorGenerator] is not among the
    sources.  Section 4.2: the base anchors are the scale_i * ratio_j
    combinations in scale-minor order (ratios vary fastest, one group per
    scale). *)
Definition gen_base_anchors (base_size : Z) (scales : list scale)
    (ratios : list Q) : list base_anchor :=
  flat_map (fun s => map (fun r => ScaleRatio base_size s r) ratios) scales.

(** Modelled from the spec: [mmdet.core.AnchorGenerator] with explicit
    [widths]/[heights].  Section 4.2, alternate path: each level zips widths
    with heights into base anchors in the given order. *)
Definition gen_explicit_anchors (widths heights : list Q) : list base_anchor :=
  map (fun wh => WidthHeight (fst wh) (snd wh)) (combine widths heights).

(** [torch.index_select(t, 0, indices)]: an index out of range raises. *)
Definition index_select {A} (t : list A) (indices : list nat)
  : result (list A) :=
  mapM (fun i => match nth_error t i with
                 | Some x => Ok x
                 | None => Raise RuntimeError
                 end) indices.

(** ** Lines 36-40: anchors per level *)

Definition num_anchors (c : config) : result (list Z) :=
  if negb (Nat.eqb (length (anchor_heights c)) 0) then
    assert (Nat.eqb (length (anchor_heights c)) (length (anchor_widths c))) ;;;
    Ok (map (fun anc_conf => Z.of_nat (length anc_conf)) (anchor_heights c))
  else
    Ok (map (fun ratios => Z.of_nat (length ratios) * 2 + 2) (anchor_ratios c)).

(** ** Lines 41-78: output widths of the regressor and classifier per level *)

Definition activation_class (name : string) : result string :=
  if String.eqb name "relu" then Ok "ReLU"%string
  else if String.eqb name "relu6" then Ok "ReLU6"%string
  else Raise KeyError.

Record head_conv : Type := {
  conv_in : Z;
  reg_out : Z;
  cls_out : Z;
  conv_depthwise : option string
}.

Definition build_conv (c : config) (na : list Z) (i : nat) : result head_conv :=
  if depthwise_heads c then
    act <- activation_class (depthwise_heads_activations c) ;;
    ch <- getitem (in_channels c) i ;;
    n <- getitem na i ;;
    Ok {| conv_in := ch; reg_out := n * 4; cls_out := n * num_classes c;
          conv_depthwise := Some act |}
  else
    ch <- getitem (in_channels c) i ;;
    n <- getitem na i ;;
    Ok {| conv_in := ch; reg_out := n * 4; cls_out := n * num_classes c;
          conv_depthwise := None |}.

Definition build_convs (c : config) (na : list Z) : result (list head_conv) :=
  mapM (build_conv c na) (seq 0 (length (in_channels c))).

(** The value the loop variable [i] of line 43 is left with: unbound when
    the loop body never ran. *)
Definition leftover_i (c : config) : option nat :=
  match length (in_channels c) with
  | O => None
  | S n => Some n
  end.

(** ** Lines 86-90 / 111-115: the anchor centre of a stride *)

Definition stride_ctr (s : stride) : Q * Q :=
  match s with
  | StrideTuple sx sy =>
      ((inject_Z (sx - 1) / 2)%Q, (inject_Z (sy - 1) / 2)%Q)
  | StrideInt s => ((inject_Z (s - 1) / 2)%Q, (inject_Z (s - 1) / 2)%Q)
  end.

(** ** Lines 82-95: explicit widths and heights *)

Definition explicit_level (c : config) (k : nat) : result AnchorGenerator :=
  i <- match leftover_i c with
       | Some i => Ok i
       | None => Raise UnboundLocalError
       end ;;
  wi <- getitem (anchor_widths c) i ;;
  hi <- getitem (anchor_heights c) i ;;
  assert (Nat.eqb (length wi) (length hi)) ;;;
  stride <- getitem (anchor_strides c) k ;;
  wk <- getitem (anchor_widths c) k ;;
  hk <- getitem (anchor_heights c) k ;;
  Ok {| base_anchors := gen_explicit_anchors wk hk; ctr := stride_ctr stride |}.

Definition explicit_generators (c : config) : result (list AnchorGenerator) :=
  assert (Nat.eqb (length (anchor_heights c)) (length (anchor_widths c))) ;;;
  mapM (explicit_level c) (seq 0 (length (anchor_strides c))).

(** ** Lines 97-108: sizes derived from [basesize_ratio_range] *)

(** [int(np.floor(max_ratio - min_ratio) / (len(in_channels) - 2))]: a numpy
    float divided by zero is [inf] or [nan], which [int] refuses. *)
Definition derive_step (min_ratio max_ratio : Z) (num_levels : nat)
  : result Z :=
  let d := Z.of_nat num_levels - 2 in
  if d =? 0 then
    if max_ratio - min_ratio =? 0 then Raise ValueError else Raise OverflowError
  else Ok (py_int (inject_Z (max_ratio - min_ratio) / inject_Z d)%Q).

Definition derive_sizes (input_size : Z) (range : Q * Q) (num_levels : nat)
  : result (list Z * list Z) :=
  let min_ratio := py_int (fst range * 100)%Q in
  let max_ratio := py_int (snd range * 100)%Q in
  step <- derive_step min_ratio max_ratio num_levels ;;
  rs <- py_range min_ratio (max_ratio + 1) step ;;
  let min_sizes :=
    map (fun r => py_int (inject_Z (input_size * r) / 100)%Q) rs in
  let max_sizes :=
    map (fun r => py_int (inject_Z (input_size * (r + step)) / 100)%Q) rs in
  Ok (py_insert 0 (py_int (inject_Z input_size * fst range / 2)%Q) min_sizes,
      py_insert 0 (py_int (inject_Z input_size * fst range)%Q) max_sizes).

(** ** Lines 109-127: one anchor generator per stride *)

(** [ratios = [1.]; for r in anchor_ratios[k]: ratios += [1 / r, r]]. *)
Fixpoint level_ratios_from (acc : list Q) (rs : list Q) : result (list Q) :=
  match rs with
  | [] => Ok acc
  | r :: t =>
      if Qeq_bool r 0 then Raise ZeroDivisionError
      else level_ratios_from (acc ++ [(1 / r)%Q; r]) t
  end.

Definition level_ratios (rs : list Q) : result (list Q) :=
  level_ratios_from [1%Q] rs.

(** [indices = list(range(len(ratios))); indices.insert(1, len(indices))]. *)
Definition reorder_indices (ratios : list Q) : list nat :=
  let indices := seq 0 (length ratios) in
  py_insert 1 (length indices) indices.

Definition derived_level (c : config) (min_sizes max_sizes : list Z)
    (k : nat) : result AnchorGenerator :=
  base_size <- getitem min_sizes k ;;
  stride <- getitem (anchor_strides c) k ;;
  max_size <- getitem max_sizes k ;;
  (if base_size =? 0 then Raise ZeroDivisionError else Ok tt) ;;;
  let scales := [ScaleOne; ScaleSqrt max_size base_size] in
  ars <- getitem (anchor_ratios c) k ;;
  ratios <- level_ratios ars ;;
  let generated := gen_base_anchors base_size scales ratios in
  selected <- index_select generated (reorder_indices ratios) ;;
  Ok {| base_anchors := selected; ctr := stride_ctr stride |}.

Definition derived_generators (c : config) : result (list AnchorGenerator) :=
  sizes <- derive_sizes (input_size c) (basesize_ratio_range c)
             (length (in_channels c)) ;;
  mapM (derived_level c (fst sizes) (snd sizes))
       (seq 0 (length (anchor_strides c))).

(** ** The constructor, as far as anchors and head widths go *)

Record head : Type := {
  head_num_anchors : list Z;
  head_convs : list head_conv;
  anchor_generators : list AnchorGenerator
}.

Definition init (c : config) : result head :=
  na <- num_anchors c ;;
  convs <- build_convs c na ;;
  gens <- (if negb (Nat.eqb (length (anchor_heights c)) 0)
           then explicit_generators c
           else derived_generators c) ;;
  Ok {| head_num_anchors := na; head_convs := convs;
        anchor_generators := gens |}.

Definition default_config : config := {|
  input_size := 300;
  num_classes := 81;
  in_channels := [512; 1024; 512; 256; 256; 256];
  anchor_strides := map StrideInt [8; 16; 32; 64; 100; 300];
  basesize_ratio_range := ((1 # 10)%Q, (9 # 10)%Q);
  anchor_ratios := [[2%Q]; [2%Q; 3%Q]; [2%Q; 3%Q]; [2%Q; 3%Q]; [2%Q]; [2%Q]];
  anchor_heights := [];
  anchor_widths := [];
  depthwise_heads := false;
  depthwise_heads_activations := "relu6"
|}.

(** The two-level scenario of section 8. *)
Definition two_level_config : config := {|
  input_size := 300;
  num_classes := 81;
  in_channels := [512; 1024];
  anchor_strides := map StrideInt [8; 16];
  basesize_ratio_range := ((2 # 10)%Q, (9 # 10)%Q);
  anchor_ratios := [[2%Q]; [2%Q; 3%Q]];
  anchor_heights := [];
  anchor_widths := [];
  depthwise_heads := false;
  depthwise_heads_activations := "relu6"
|}.

(** ** The size derivation in the words of the specification (section 4.1) *)






(** The ratio list of a level in the words of section 4.1:
    [[1.0]] followed by [[1/r, r]] for each configured ratio. *)
Definition ratio_list (ars : list Q) : list Q :=
  1%Q :: flat_map (fun r => [(1 / r)%Q; r]) ars.

(** An explicit configuration whose widths and heights disagree at level 0
    only. *)
Definition mismatched_level0_config : config := {|
  input_size := 300;
  num_classes := 81;
  in_channels := [512; 1024];
  anchor_strides := map StrideInt [8; 16];
  basesize_ratio_range := ((1 # 10)%Q, (9 # 10)%Q);
  anchor_ratios := [[2%Q]; [2%Q; 3%Q]];
  anchor_heights := [[10%Q; 20%Q]; [30%Q]];
  anchor_widths := [[10%Q]; [30%Q]];
  depthwise_heads := false;
  depthwise_heads_activations := "relu6"
|}.

(** Moving the last element of a sequence to index 1. *)
Definition move_last_to_index1 {A} (l : list A) : list A :=
  match rev l with
  | [] => []
  | x :: rest => py_insert 1 x (rev rest)
  end.

End Anchors.

(* ================================================================== *)
(** * Hard-negative-mining loss and batch loss                          *)
(* ================================================================== *)

Module Loss.
Local Open Scope py_scope.

(** The loss configuration object [cfg]. *)
Record train_cfg : Type := {
  neg_pos_ratio : Z;
  smoothl1_beta : Q
}.

(** ** Tensor operations used by [loss_single] *)

Definition qsum (l : list Q) : Q := fold_right Qplus 0%Q l.

(** [a * b] on one-dimensional tensors, with torch's broadcasting of a
    length-one operand. *)
Definition broadcast_mul (a b : list Q) : result (list Q) :=
  if Nat.eqb (length a) (length b) then
    Ok (map (fun xy => (fst xy * snd xy)%Q) (combine a b))
  else match a, b with
       | [x], _ => Ok (map (fun y => (x * y)%Q) b)
       | _, [y] => Ok (map (fun x => (x * y)%Q) a)
       | _, _ => Raise RuntimeError
       end.

(** [mask.nonzero().view(-1)]: the positions at which the mask holds. *)
Fixpoint nonzero_from (i : nat) (mask : list bool) : list nat :=
  match mask with
  | [] => []
  | b :: t => if b then i :: nonzero_from (S i) t else nonzero_from (S i) t
  end.
Definition nonzero (mask : list bool) : list nat := nonzero_from 0 mask.

(** [t[inds]]. *)
Definition index (t : list Q) (inds : list nat) : result (list Q) :=
  mapM (getitem t) inds.

(** Descending insertion sort: the value order of [topk]. *)
Fixpoint insert_desc (x : Q) (l : list Q) : list Q :=
  match l with
  | [] => [x]
  | y :: t => if Qle_bool y x then x :: l else y :: insert_desc x t
  end.
Definition sort_desc (l : list Q) : list Q := fold_right insert_desc [] l.

(** The order of a descending list. *)
Definition Qge' (a b : Q) : Prop := (b <= a)%Q.

(** [t.topk(k)] (values only): the [k] largest entries, largest first;
    [k] outside [0, len(t)] raises. *)
Definition topk (t : list Q) (k : Z) : result (list Q) :=
  if ((k <? 0) || (Z.of_nat (length t) <? k))%Z then Raise RuntimeError
  else Ok (firstn (Z.to_nat k) (sort_desc t)).

Section PerImage.

(** [F.cross_entropy] on one anchor (a row of logits and its label) and
    [smooth_l1_loss] are library functions taken as parameters. *)
Variable cross_entropy : list Q -> Z -> Q.
Variable smooth_l1_loss :
  list (list Q) -> list (list Q) -> list (list Q) -> Q -> Z -> result Q.

(** [F.cross_entropy(cls_score, labels, reduction='none')]. *)
Definition cross_entropy_none (cls_score : list (list Q)) (labels : list Z)
  : result (list Q) :=
  if Nat.eqb (length cls_score) (length labels) then
    Ok (map (fun sl => cross_entropy (fst sl) (snd sl))
            (combine cls_score labels))
  else Raise ValueError.

(** What lines 156-165 of [loss_single] compute. *)
Record mined : Type := {
  loss_cls_all : list Q;
  pos_inds : list nat;
  neg_inds : list nat;
  num_pos_samples : Z;
  num_neg_samples : Z;
  topk_loss_cls_neg : list Q
}.

Definition mine_negatives (cls_score : list (list Q)) (labels : list Z)
    (label_weights : list Q) (cfg : train_cfg) : result mined :=
  ce <- cross_entropy_none cls_score labels ;;
  loss_cls_all <- broadcast_mul ce label_weights ;;
  let pos_inds := nonzero (map (fun l => (0 <? l)%Z) labels) in
  let neg_inds := nonzero (map (fun l => (l =? 0)%Z) labels) in
  let num_pos_samples := Z.of_nat (length pos_inds) in
  let num_neg_samples := (neg_pos_ratio cfg * num_pos_samples)%Z in
  let num_neg_samples :=
    if (Z.of_nat (length neg_inds) <? num_neg_samples)%Z
    then Z.of_nat (length neg_inds) else num_neg_samples in
  neg_losses <- index loss_cls_all neg_inds ;;
  topk_loss_cls_neg <- topk neg_losses num_neg_samples ;;
  Ok {| loss_cls_all := loss_cls_all; pos_inds := pos_inds;
        neg_inds := neg_inds; num_pos_samples := num_pos_samples;
        num_neg_samples := num_neg_samples;
        topk_loss_cls_neg := topk_loss_cls_neg |}.

(** [loss_single]: returns [(loss_cls[None], loss_bbox)]. *)
Definition loss_single (cls_score bbox_pred : list (list Q))
    (labels : list Z) (label_weights : list Q)
    (bbox_targets bbox_weights : list (list Q))
    (num_total_samples : Z) (cfg : train_cfg) : result (list Q * Q) :=
  m <- mine_negatives cls_score labels label_weights cfg ;;
  assert (0 <? num_pos_samples m)%Z ;;;
  assert (0 <? num_neg_samples m)%Z ;;;
  assert (0 <? num_total_samples)%Z ;;;
  pos_losses <- index (loss_cls_all m) (pos_inds m) ;;
  let loss_cls_pos := qsum pos_losses in
  let loss_cls_neg := qsum (topk_loss_cls_neg m) in
  let loss_cls :=
    ((loss_cls_pos + loss_cls_neg) / inject_Z num_total_samples)%Q in
  loss_bbox <- smooth_l1_loss bbox_pred bbox_targets bbox_weights
                 (smoothl1_beta cfg) num_total_samples ;;
  Ok ([loss_cls], loss_bbox).

End PerImage.

(** ** The quantities of section 4.4, for stating what [loss_single] does *)

(** Step 1: the raw per-anchor cross-entropy weighted by [label_weight]. *)
Definition spec_weighted_ce (cross_entropy : list Q -> Z -> Q)
    (cls_score : list (list Q)) (labels : list Z) (label_weights : list Q)
  : list Q :=
  map (fun xy => (fst xy * snd xy)%Q)
      (combine (map (fun sl => cross_entropy (fst sl) (snd sl))
                    (combine cls_score labels))
               label_weights).

(** Step 2: the losses of the anchors whose label satisfies [p]. *)
Definition spec_losses_where (p : Z -> bool) (labels : list Z)
    (losses : list Q) : list Q :=
  map snd (filter (fun lx => p (fst lx)) (combine labels losses)).

Definition is_positive (l : Z) : bool := (0 <? l)%Z.
Definition is_negative (l : Z) : bool := (l =? 0)%Z.

Definition spec_num_pos (labels : list Z) : Z :=
  Z.of_nat (length (filter is_positive labels)).

(** Step 4: [min(neg_pos_ratio * num_pos, count(negatives))]. *)
Definition spec_num_neg (cfg : train_cfg) (labels : list Z) : Z :=
  Z.min (neg_pos_ratio cfg * spec_num_pos labels)
        (Z.of_nat (length (filter is_negative labels))).

(** Step 6: the classification loss of the image. *)
Definition spec_loss_cls (cross_entropy : list Q -> Z -> Q)
    (cls_score : list (list Q)) (labels : list Z) (label_weights : list Q)
    (num_total_samples : Z) (cfg : train_cfg) : Q :=
  let all := spec_weighted_ce cross_entropy cls_score labels label_weights in
  ((qsum (spec_losses_where is_positive labels all)
    + qsum (firstn (Z.to_nat (spec_num_neg cfg labels))
              (sort_desc (spec_losses_where is_negative labels all))))
   / inject_Z num_total_samples)%Q.

(** A loss configuration and small images for concrete runs. *)
Definition cfg3 : train_cfg := {| neg_pos_ratio := 3; smoothl1_beta := 1 |}.

Definition toy_scores : list (list Q) :=
  [[1%Q; 0%Q]; [5%Q; 0%Q]; [2%Q; 0%Q]; [7%Q; 0%Q]; [3%Q; 0%Q]].
Definition toy_labels : list Z := [1; 0; 0; 0; 0]%Z.
Definition toy_weights : list Q := [1%Q; 1%Q; 1%Q; 1%Q; 1%Q].

(** A stand-in per-anchor loss for concrete runs (the first logit of the
    row) and a stand-in regression loss. *)
Definition toy_cross_entropy (row : list Q) (label : Z) : Q := hd 0%Q row.
Definition toy_smooth_l1 (pred target weight : list (list Q)) (beta : Q)
    (avg_factor : Z) : result Q :=
  Ok (qsum (map qsum pred) / inject_Z avg_factor)%Q.

(** ** Tensors of the batch loss *)

(** A float as [torch.isfinite] sees it. *)
Inductive fval : Type :=
| Finite (q : Q)
| PosInf
| NegInf
| NaN.

Definition isfinite (v : fval) : bool :=
  match v with
  | Finite _ => true
  | _ => false
  end.

(** [torch.isfinite(t).all().item()] on an images x anchors x channels
    tensor. *)
Definition all_finite (t : list (list (list fval))) : bool :=
  forallb (forallb (forallb isfinite)) t.

(** The rational a finite float stands for. *)
Definition finite_part (v : fval) : Q :=
  match v with
  | Finite q => q
  | _ => 0%Q
  end.

(** [torch.cat(levels, 1)] of per-level tensors whose first dimension is
    [num_images] (each already permuted and reshaped to images x anchors). *)
Definition cat_levels {A} (num_images : nat) (levels : list (list (list A)))
  : result (list (list A)) :=
  match levels with
  | [] => Raise RuntimeError
  | _ =>
      if forallb (fun lvl => Nat.eqb (length lvl) num_images) levels then
        Ok (map (fun i => concat (map (fun lvl => nth i lvl []) levels))
                (seq 0 num_images))
      else Raise RuntimeError
  end.

(** What the assigner [anchor_target] hands back when it is not [None]. *)
Record targets : Type := {
  labels_list : list (list (list Z));
  label_weights_list : list (list (list Q));
  bbox_targets_list : list (list (list (list Q)));
  bbox_weights_list : list (list (list (list Q)));
  num_total_pos : Z;
  num_total_neg : Z
}.

(** Lines 214-229: the per-image views of predictions and targets. *)
Record batch : Type := {
  all_cls_scores : list (list (list fval));
  all_labels : list (list Z);
  all_label_weights : list (list Q);
  all_bbox_preds : list (list (list fval));
  all_bbox_targets : list (list (list Q));
  all_bbox_weights : list (list (list Q))
}.

Definition aggregate (num_images : nat)
    (cls_scores bbox_preds : list (list (list (list fval))))
    (t : targets) : result batch :=
  all_cls_scores <- cat_levels num_images cls_scores ;;
  all_labels <- cat_levels num_images (labels_list t) ;;
  all_label_weights <- cat_levels num_images (label_weights_list t) ;;
  all_bbox_preds <- cat_levels num_images bbox_preds ;;
  all_bbox_targets <- cat_levels num_images (bbox_targets_list t) ;;
  all_bbox_weights <- cat_levels num_images (bbox_weights_list t) ;;
  Ok {| all_cls_scores := all_cls_scores; all_labels := all_labels;
        all_label_weights := all_label_weights;
        all_bbox_preds := all_bbox_preds;
        all_bbox_targets := all_bbox_targets;
        all_bbox_weights := all_bbox_weights |}.

(** Modelled from the spec: [mmdet.core.multi_apply] is not among the
    sources (a batched map utility, section 1).  It applies the per-image
    function to the images in order and returns the list of first results
    and the list of second results. *)
Fixpoint multi_apply {R1 R2 : Type}
    (func : list (list Q) -> list (list Q) -> list Z -> list Q ->
            list (list Q) -> list (list Q) -> result (R1 * R2))
    (a1 a2 : list (list (list Q))) (a3 : list (list Z)) (a4 : list (list Q))
    (a5 a6 : list (list (list Q))) : result (list R1 * list R2) :=
  match a1, a2, a3, a4, a5, a6 with
  | x1 :: t1, x2 :: t2, x3 :: t3, x4 :: t4, x5 :: t5, x6 :: t6 =>
      r <- func x1 x2 x3 x4 x5 x6 ;;
      rs <- multi_apply func t1 t2 t3 t4 t5 t6 ;;
      Ok (fst r :: fst rs, snd r :: snd rs)
  | _, _, _, _, _, _ => Ok ([], [])
  end.

(** ** Loss values and the balancer *)

Inductive tensor : Type :=
| Scalar (r : R)
| Vec (l : list R).

Definition rsum (l : list R) : R := fold_right Rplus 0%R l.

(** [t.mean()]. *)
Definition mean (t : tensor) : R :=
  match t with
  | Scalar r => r
  | Vec l => (rsum l / INR (length l))%R
  end.

(** Python's [sum(...)]: left to right from [0]. *)
Definition py_sum (l : list R) : R := fold_left Rplus l 0%R.

Definition _balance_losses (loss_weights : R * R)
    (losses_cls losses_reg : list tensor) : R * R :=
  let loss_cls := py_sum (map mean losses_cls) in
  let loss_cls :=
    (exp (- fst loss_weights) * loss_cls + 0.5 * fst loss_weights)%R in
  let loss_reg := py_sum (map mean losses_reg) in
  let loss_reg :=
    (exp (- snd loss_weights) * loss_reg + 0.5 * snd loss_weights)%R in
  (loss_cls, loss_reg).

Inductive dict_value : Type :=
| Tensor (t : R)
| TensorList (l : list tensor).

Record loss_dict : Type := {
  loss_cls : dict_value;
  loss_bbox : dict_value
}.

(** The fields of [self] that [loss] reads. *)
Record loss_self : Type := {
  num_anchor_generators : nat;
  loss_balancing : bool;
  loss_weights : R * R
}.

Definition msg_cls : string :=
  "classification scores become infinite or NaN!".
Definition msg_bbox : string :=
  "bbox predications become infinite or NaN!".

(** The values of a tensor that passed the finiteness assertions. *)
Definition rationals (t : list (list (list fval))) : list (list (list Q)) :=
  map (map (map finite_part)) t.

Section Batch.

(** The per-image function handed to [multi_apply], with the keyword
    arguments [num_total_samples] and [cfg] last. *)
Variable per_image :
  list (list Q) -> list (list Q) -> list Z -> list Q ->
  list (list Q) -> list (list Q) -> Z -> train_cfg -> result (list Q * Q).

(** [loss]; [cls_reg_targets] is the assigner's answer. *)
Definition loss_with (self : loss_self)
    (cls_scores bbox_preds : list (list (list (list fval))))
    (num_images : nat) (cls_reg_targets : option targets) (cfg : train_cfg)
  : result (option loss_dict) :=
  assert (Nat.eqb (length cls_scores) (num_anchor_generators self)) ;;;
  _ <- getitem cls_scores 0 ;;
  match cls_reg_targets with
  | None => Ok None
  | Some t =>
      b <- aggregate num_images cls_scores bbox_preds t ;;
      assert_msg (all_finite (all_cls_scores b)) msg_cls ;;;
      assert_msg (all_finite (all_bbox_preds b)) msg_bbox ;;;
      r <- multi_apply
             (fun s p l w bt bw => per_image s p l w bt bw (num_total_pos t) cfg)
             (rationals (all_cls_scores b)) (rationals (all_bbox_preds b))
             (all_labels b) (all_label_weights b)
             (all_bbox_targets b) (all_bbox_weights b) ;;
      let losses_cls := map (fun l => Vec (map Q2R l)) (fst r) in
      let losses_bbox := map (fun x => Scalar (Q2R x)) (snd r) in
      if loss_balancing self then
        let balanced :=
          _balance_losses (loss_weights self) losses_cls losses_bbox in
        let losses_cls := fst balanced in
        let losses_reg := snd balanced in
        Ok (Some {| loss_cls := Tensor losses_cls;
                    loss_bbox := TensorList losses_bbox |})
      else
        Ok (Some {| loss_cls := TensorList losses_cls;
                    loss_bbox := TensorList losses_bbox |})
  end.

End Batch.

(** [SSDHead.loss]: [multi_apply] runs [self.loss_single]. *)
Definition loss (cross_entropy : list Q -> Z -> Q)
    (smooth_l1_loss :
       list (list Q) -> list (list Q) -> list (list Q) -> Q -> Z -> result Q)
  := loss_with (loss_single cross_entropy smooth_l1_loss).

(** The mean across images of the per-image loss terms, as section 4.5
    words it. *)
Definition spec_mean_across (per_image_terms : list R) : R :=
  (rsum per_image_terms / INR (length per_image_terms))%R.

(** ** Small batches for concrete runs *)

Definition plain_head : loss_self :=
  {| num_anchor_generators := 1; loss_balancing := false;
     loss_weights := (0%R, 0%R) |}.

Definition balancing_head : loss_self :=
  {| num_anchor_generators := 1; loss_balancing := true;
     loss_weights := (0%R, 0%R) |}.

Definition zero_box : list fval := [Finite 0; Finite 0; Finite 0; Finite 0].
Definition zero_boxQ : list Q := [0%Q; 0%Q; 0%Q; 0%Q].

(** One level, one image, one anchor labelled background. *)
Definition background_scores : list (list (list (list fval))) :=
  [[[[Finite 1; Finite 0]]]].
Definition background_boxes : list (list (list (list fval))) :=
  [[[zero_box]]].
Definition background_targets : targets :=
  {| labels_list := [[[0%Z]]]; label_weights_list := [[[1%Q]]];
     bbox_targets_list := [[[zero_boxQ]]];
     bbox_weights_list := [[[zero_boxQ]]];
     num_total_pos := 1; num_total_neg := 1 |}.

(** One level, two images of one positive and one background anchor. *)
Definition pair_scores : list (list (list (list fval))) :=
  [[[[Finite 1; Finite 0]; [Finite 3; Finite 0]];
    [[Finite 2; Finite 0]; [Finite 4; Finite 0]]]].
Definition pair_boxes : list (list (list (list fval))) :=
  [[[zero_box; zero_box]; [zero_box; zero_box]]].
Definition pair_targets : targets :=
  {| labels_list := [[[1%Z; 0%Z]; [1%Z; 0%Z]]];
     label_weights_list := [[[1%Q; 1%Q]; [1%Q; 1%Q]]];
     bbox_targets_list := [[[zero_boxQ; zero_boxQ]; [zero_boxQ; zero_boxQ]]];
     bbox_weights_list := [[[zero_boxQ; zero_boxQ]; [zero_boxQ; zero_boxQ]]];
     num_total_pos := 2; num_total_neg := 2 |}.

Definition pair_batch : batch :=
  {| all_cls_scores :=
       [[[Finite 1; Finite 0]; [Finite 3; Finite 0]];
        [[Finite 2; Finite 0]; [Finite 4; Finite 0]]];
     all_labels := [[1%Z; 0%Z]; [1%Z; 0%Z]];
     all_label_weights := [[1%Q; 1%Q]; [1%Q; 1%Q]];
     all_bbox_preds := [[zero_box; zero_box]; [zero_box; zero_box]];
     all_bbox_targets := [[zero_boxQ; zero_boxQ]; [zero_boxQ; zero_boxQ]];
     all_bbox_weights := [[zero_boxQ; zero_boxQ]; [zero_boxQ; zero_boxQ]] |}.

Definition background_batch : batch :=
  {| all_cls_scores := [[[Finite 1; Finite 0]]];
     all_labels := [[0%Z]];
     all_label_weights := [[1%Q]];
     all_bbox_preds := [[zero_box]];
     all_bbox_targets := [[zero_boxQ]];
     all_bbox_weights := [[zero_boxQ]] |}.

End Loss.

(* ================================================================== *)
(** * The forward pass and further concrete inputs                      *)
(* ================================================================== *)

Module Head.
Import Anchors Loss.
Local Open Scope Z_scope.
Local Open Scope py_scope.

Section Forward.

(** Feature maps and prediction maps; applying the classifier and the
    regressor of a level (torch modules) is taken as a parameter. *)
Variables (feature prediction : Type).
Variable cls_conv : head_conv -> feature -> result prediction.
Variable reg_conv : head_conv -> feature -> result prediction.

(** [forward]: [zip(feats, self.reg_convs, self.cls_convs)] stops at the
    shorter sequence; both module lists have one entry per level. *)
Fixpoint forward (feats : list feature) (convs : list head_conv)
  : result (list prediction * list prediction) :=
  match feats, convs with
  | feat :: feats', conv :: convs' =>
      c <- cls_conv conv feat ;;
      b <- reg_conv conv feat ;;
      rest <- forward feats' convs' ;;
      Ok (c :: fst rest, b :: snd rest)
  | _, _ => Ok ([], [])
  end.

End Forward.

(** [self] with the [loss_balancing] flag set as given. *)
Definition with_balancing (flag : bool) (self : loss_self) : loss_self :=
  {| num_anchor_generators := num_anchor_generators self;
     loss_balancing := flag;
     loss_weights := loss_weights self |}.

Definition empty_head : head :=
  {| head_num_anchors := []; head_convs := []; anchor_generators := [] |}.

(** The head built from the default arguments. *)
Definition default_head : head :=
  Eval vm_compute in
    match init default_config with
    | Ok h => h
    | Raise _ => empty_head
    end.

(** One level, one image, one anchor whose first logit is not a number. *)
Definition nan_scores : list (list (list (list fval))) :=
  [[[[NaN; Finite 0]]]].


Definition unknown_activation_config : config := {|
  input_size := 300;
  num_classes := 81;
  in_channels := [512; 1024; 512];
  anchor_strides := map StrideInt [8; 16; 32];
  basesize_ratio_range := ((1 # 10)%Q, (9 # 10)%Q);
  anchor_ratios := [[2%Q]; [2%Q; 3%Q]; [2%Q]];
  anchor_heights := [];
  anchor_widths := [];
  depthwise_heads := true;
  depthwise_heads_activations := "gelu"
|}.


Definition outer_mismatch_config : config := {|
  input_size := 300;
  num_classes := 81;
  in_channels := [512; 1024];
  anchor_strides := map StrideInt [8; 16];
  basesize_ratio_range := ((1 # 10)%Q, (9 # 10)%Q);
  anchor_ratios := [[2%Q]; [2%Q; 3%Q]];
  anchor_heights := [[10%Q]; [30%Q]];
  anchor_widths := [[10%Q]];
  depthwise_heads := false;
  depthwise_heads_activations := "relu6"
|}.

Definition no_channels_config : config := {|
  input_size := 300;
  num_classes := 81;
  in_channels := [];
  anchor_strides := map StrideInt [8];
  basesize_ratio_range := ((1 # 10)%Q, (9 # 10)%Q);
  anchor_ratios := [];
  anchor_heights := [[10%Q]];
  anchor_widths := [[10%Q]];
  depthwise_heads := false;
  depthwise_heads_activations := "relu6"
|}.

End Head.

Import Anchors Loss Head.

(* ================================================================== *)
(** * Facts about the Python run-time model                             *)
(* ================================================================== *)

Local Open Scope Z_scope.












(* ================================================================== *)
(** * Size derivation (lines 97-108)                                    *)
(* ================================================================== *)









(** With two levels the divisor [len(in_channels) - 2] is zero. *)
Lemma derive_sizes_two_levels (input_size : Z) (range : Q * Q) :
  derive_sizes input_size range 2 = Raise ValueError \/
  derive_sizes input_size range 2 = Raise OverflowError.
Proof.
  unfold derive_sizes, derive_step. simpl.
  destruct (_ =? 0); [left | right]; reflexivity.
Qed.











(** C7 (as amended): in the two-level scenario (strides (8, 16), ratio range
    (0.2, 0.9), anchor ratios ([2], [2, 3]), input size 300) the derivation
    does not produce sizes: the step divides by [num_levels - 2 = 0] and the
    constructor raises [OverflowError]; every two-level derivation raises. *)
Theorem two_level_scenario_raises :
  init two_level_config = Raise OverflowError /\
  derive_sizes 300 ((2 # 10)%Q, (9 # 10)%Q) 2 = Raise OverflowError /\
  forall (input_size : Z) (range : Q * Q),
    raises (derive_sizes input_size range 2).
Proof.
  split; [reflexivity |]. split; [reflexivity |].
  intros input_size range.
  destruct (derive_sizes_two_levels input_size range) as [E | E];
    rewrite E; eexists; reflexivity.
Qed.

(** C7, as stated, fails: the scenario yields no (min_sizes, max_sizes). *)
Lemma two_level_scenario_counterexample :
  ~ returns (derive_sizes (input_size two_level_config)
               (basesize_ratio_range two_level_config)
               (length (in_channels two_level_config))) /\
  ~ returns (init two_level_config).
Proof.
  split; intros [x Hx]; vm_compute in Hx; discriminate.
Qed.

(* ================================================================== *)
(** * Base-anchor order of a derived level (lines 109-127)              *)
(* ================================================================== *)

Lemma level_ratios_from_ok (ars acc : list Q) :
  Forall (fun r => ~ (r == 0)%Q) ars ->
  level_ratios_from acc ars
  = Ok (acc ++ flat_map (fun r => [(1 / r)%Q; r]) ars).
Proof.
  intros H. revert acc. induction H as [| r t Hr _ IH]; intros acc.
  - simpl. rewrite app_nil_r. reflexivity.
  - simpl. destruct (Qeq_bool r 0) eqn:E.
    + apply Qeq_bool_eq in E. contradiction.
    + rewrite IH. rewrite <- app_assoc. reflexivity.
Qed.

Lemma level_ratios_ok (ars : list Q) :
  Forall (fun r => ~ (r == 0)%Q) ars ->
  level_ratios ars = Ok (ratio_list ars).
Proof. intros H. unfold level_ratios. apply level_ratios_from_ok, H. Qed.

Lemma ratio_list_length (ars : list Q) :
  length (ratio_list ars) = (2 * length ars + 1)%nat.
Proof.
  unfold ratio_list. simpl. induction ars as [| r t IH]; simpl in *; lia.
Qed.

Lemma index_select_middle {A} (mid pre post : list A) :
  index_select (pre ++ mid ++ post) (seq (length pre) (length mid)) = Ok mid.
Proof.
  revert pre. induction mid as [| x m IH]; intros pre.
  - reflexivity.
  - unfold index_select in *. cbn [length seq mapM].
    rewrite nth_error_app2 by lia. rewrite Nat.sub_diag. cbn [nth_error].
    specialize (IH (pre ++ [x])).
    rewrite <- app_assoc, length_app in IH. cbn [app length] in IH.
    rewrite Nat.add_1_r in IH. cbn [app]. rewrite IH. reflexivity.
Qed.

(** The selection of lines 122-126 on a cross product of two scale groups. *)
Lemma reorder_selects {A} (a0 a1 : A) (g0 g1 : list A) (ratios : list Q) :
  length ratios = S (length g0) ->
  index_select ((a0 :: g0) ++ a1 :: g1) (reorder_indices ratios)
  = Ok (a0 :: a1 :: g0).
Proof.
  intros HL. unfold reorder_indices, py_insert.
  rewrite length_seq, HL. cbn [seq firstn skipn app].
  unfold index_select. cbn [mapM nth_error].
  replace (nth_error (g0 ++ a1 :: g1) (length g0)) with (Some a1)
    by (rewrite nth_error_app2 by lia; rewrite Nat.sub_diag; reflexivity).
  pose proof (index_select_middle g0 [a0] (a1 :: g1)) as Hm.
  unfold index_select in Hm. cbn [length app] in Hm. rewrite Hm.
  reflexivity.
Qed.

(** C2 (as amended): for every level [k] on the ratio-derivation path (non-zero
    base size, non-zero configured ratios) the generated cross product of
    the two scales with the [2n + 1] ratios has [2 * (2n + 1)] anchors; the
    anchor (second scale, ratio 1.0) is its entry at index [2n + 1], the first
    of the second scale group (not the last entry unless [n = 0]); the
    level's base anchors are the first scale group with that anchor inserted
    at index 1, the other anchors of the second scale being dropped; so
    index 1 holds ratio 1.0 at the second scale and the sequence has length
    [2 * len(anchor_ratios[k]) + 2]. *)
Theorem derived_level_anchor_order
    (c : config) (min_sizes max_sizes : list Z) (k : nat)
    (base_size max_size : Z) (st : stride) (ars : list Q) :
  nth_error min_sizes k = Some base_size ->
  nth_error max_sizes k = Some max_size ->
  nth_error (anchor_strides c) k = Some st ->
  nth_error (anchor_ratios c) k = Some ars ->
  base_size <> 0 ->
  Forall (fun r => ~ (r == 0)%Q) ars ->
  exists g : AnchorGenerator,
    derived_level c min_sizes max_sizes k = Ok g /\
    length (gen_base_anchors base_size
              [ScaleOne; ScaleSqrt max_size base_size] (ratio_list ars))
    = (2 * (2 * length ars + 1))%nat /\
    nth_error (gen_base_anchors base_size
                 [ScaleOne; ScaleSqrt max_size base_size] (ratio_list ars))
              (2 * length ars + 1)
    = Some (ScaleRatio base_size (ScaleSqrt max_size base_size) 1) /\
    base_anchors g
    = py_insert 1 (ScaleRatio base_size (ScaleSqrt max_size base_size) 1)
        (firstn (2 * length ars + 1)
           (gen_base_anchors base_size
              [ScaleOne; ScaleSqrt max_size base_size] (ratio_list ars))) /\
    nth_error (base_anchors g) 1
    = Some (ScaleRatio base_size (ScaleSqrt max_size base_size) 1) /\
    length (base_anchors g) = (2 * length ars + 2)%nat.
Proof.
  intros Hmin Hmax Hst Har Hb Hnz.
  pose proof (ratio_list_length ars) as HL.
  unfold derived_level, getitem.
  rewrite Hmin, Hst, Hmax, Har. cbn [bind].
  destruct (Z.eqb_spec base_size 0) as [E | _]; [contradiction |].
  cbn [bind]. rewrite (level_ratios_ok ars Hnz). cbn [bind].
  set (s1 := ScaleSqrt max_size base_size) in *.
  set (rest := flat_map (fun r => [(1 / r)%Q; r]) ars).
  assert (Hrest : length rest = (2 * length ars)%nat)
    by (unfold ratio_list in HL; fold rest in HL; simpl in HL; lia).
  assert (Hgen :
    gen_base_anchors base_size [ScaleOne; s1] (ratio_list ars)
    = (ScaleRatio base_size ScaleOne 1
         :: map (ScaleRatio base_size ScaleOne) rest)
      ++ ScaleRatio base_size s1 1 :: map (ScaleRatio base_size s1) rest).
  { unfold gen_base_anchors, ratio_list. fold rest. cbn [flat_map map].
    rewrite app_nil_r. reflexivity. }
  rewrite Hgen.
  rewrite reorder_selects by (rewrite length_map; lia).
  cbn [bind]. eexists. split; [reflexivity |]. cbn [base_anchors].
  split; [| split; [| split; [| split]]].
  - rewrite length_app. cbn [length]. rewrite !length_map. lia.
  - rewrite nth_error_app2 by (cbn [length]; rewrite length_map; lia).
    cbn [length]. rewrite length_map.
    replace (2 * length ars + 1 - S (length rest))%nat with 0%nat by lia.
    reflexivity.
  - rewrite firstn_app.
    replace (2 * length ars + 1
             - length (ScaleRatio base_size ScaleOne 1
                         :: map (ScaleRatio base_size ScaleOne) rest))%nat
      with 0%nat by (cbn [length]; rewrite length_map; lia).
    rewrite firstn_all2 by (cbn [length]; rewrite length_map; lia).
    cbn [firstn]. rewrite app_nil_r. reflexivity.
  - reflexivity.
  - cbn [length]. rewrite length_map. lia.
Qed.

Lemma derived_level_anchor_order_witness :
  exists g : AnchorGenerator,
    derived_level default_config [15; 30] [30; 90] 1 = Ok g /\
    length (gen_base_anchors 30 [ScaleOne; ScaleSqrt 90 30]
              (ratio_list [2%Q; 3%Q]))
    = (2 * (2 * length [2%Q; 3%Q] + 1))%nat /\
    nth_error (gen_base_anchors 30 [ScaleOne; ScaleSqrt 90 30]
                 (ratio_list [2%Q; 3%Q]))
              (2 * length [2%Q; 3%Q] + 1)
    = Some (ScaleRatio 30 (ScaleSqrt 90 30) 1) /\
    base_anchors g
    = py_insert 1 (ScaleRatio 30 (ScaleSqrt 90 30) 1)
        (firstn (2 * length [2%Q; 3%Q] + 1)
           (gen_base_anchors 30 [ScaleOne; ScaleSqrt 90 30]
              (ratio_list [2%Q; 3%Q]))) /\
    nth_error (base_anchors g) 1 = Some (ScaleRatio 30 (ScaleSqrt 90 30) 1) /\
    length (base_anchors g) = (2 * length [2%Q; 3%Q] + 2)%nat.
Proof.
  apply (derived_level_anchor_order default_config [15; 30] [30; 90] 1
           30 90 (StrideInt 16) [2%Q; 3%Q]).
  - reflexivity.
  - reflexivity.
  - reflexivity.
  - reflexivity.
  - lia.
  - repeat constructor; intros H; vm_compute in H; discriminate.
Defined.

(** C2, as stated, fails: at a level with ratios [[2]] the cross product has
    six anchors, its last one is (second scale, ratio 2), and moving the last
    anchor to index 1 does not give the level's four base anchors. *)
Lemma anchor_reorder_counterexample :
  derived_level default_config [15] [30] 0
  = Ok {| base_anchors :=
            [ScaleRatio 15 ScaleOne 1; ScaleRatio 15 (ScaleSqrt 30 15) 1;
             ScaleRatio 15 ScaleOne (1 / 2); ScaleRatio 15 ScaleOne 2];
          ctr := stride_ctr (StrideInt 8) |} /\
  last (gen_base_anchors 15 [ScaleOne; ScaleSqrt 30 15] (ratio_list [2%Q]))
       (ScaleRatio 15 ScaleOne 1)
  <> ScaleRatio 15 (ScaleSqrt 30 15) 1 /\
  move_last_to_index1
    (gen_base_anchors 15 [ScaleOne; ScaleSqrt 30 15] (ratio_list [2%Q]))
  <> [ScaleRatio 15 ScaleOne 1; ScaleRatio 15 (ScaleSqrt 30 15) 1;
      ScaleRatio 15 ScaleOne (1 / 2); ScaleRatio 15 ScaleOne 2].
Proof.
  split; [reflexivity |].
  split; intros H; vm_compute in H; discriminate.
Qed.

(* ================================================================== *)
(** * Explicit widths and heights (lines 36-38 and 82-95)               *)
(* ================================================================== *)

(** X24: different numbers of levels in the two tables stop the
    constructor. *)
Lemma explicit_outer_mismatch_raises (c : config) :
  anchor_heights c <> [] ->
  length (anchor_heights c) <> length (anchor_widths c) ->
  init c = Raise (AssertionError EmptyString).
Proof.
  intros Hne Hlen. unfold init, num_anchors.
  assert (H1 : Nat.eqb (length (anchor_heights c)) 0 = false).
  { apply Nat.eqb_neq. destruct (anchor_heights c); [contradiction |].
    discriminate. }
  assert (H2 : Nat.eqb (length (anchor_heights c)) (length (anchor_widths c))
               = false) by (apply Nat.eqb_neq; exact Hlen).
  rewrite H1, H2. reflexivity.
Qed.


(** C9 (the code at the failing input): widths and heights of different
    lengths at level 0 of a two-level explicit configuration pass the
    constructor; the head is sized for two anchors at level 0 while one base
    anchor is generated there. *)
Theorem explicit_level0_mismatch_accepted :
  length (nth 0 (anchor_widths mismatched_level0_config) [])
  <> length (nth 0 (anchor_heights mismatched_level0_config) []) /\
  exists h : head,
    init mismatched_level0_config = Ok h /\
    head_num_anchors h = [2; 1] /\
    map (fun g => length (base_anchors g)) (anchor_generators h)
    = [1%nat; 1%nat].
Proof.
  split; [simpl; lia |].
  eexists. split; [reflexivity |]. split; reflexivity.
Qed.

(* ================================================================== *)
(** * Hard negative mining ([loss_single], lines 156-171)               *)
(* ================================================================== *)

Lemma insert_desc_perm (x : Q) (l : list Q) :
  Permutation (insert_desc x l) (x :: l).
Proof.
  induction l as [| y t IH]; simpl.
  - apply Permutation_refl.
  - destruct (Qle_bool y x).
    + apply Permutation_refl.
    + apply perm_trans with (y :: x :: t).
      * apply perm_skip, IH.
      * apply perm_swap.
Qed.

Lemma sort_desc_perm (l : list Q) : Permutation (sort_desc l) l.
Proof.
  induction l as [| x t IH]; simpl.
  - apply perm_nil.
  - apply perm_trans with (x :: sort_desc t).
    + apply insert_desc_perm.
    + apply perm_skip, IH.
Qed.

Lemma sort_desc_length (l : list Q) : length (sort_desc l) = length l.
Proof. apply Permutation_length, sort_desc_perm. Qed.

Lemma insert_desc_sorted (x : Q) (l : list Q) :
  StronglySorted Qge' l -> StronglySorted Qge' (insert_desc x l).
Proof.
  induction l as [| y t IH]; intros Hs; simpl.
  - constructor; constructor.
  - inversion Hs as [| ? ? Ht Hy]; subst.
    destruct (Qle_bool y x) eqn:E.
    + apply Qle_bool_iff in E. constructor; [exact Hs |].
      constructor; [exact E |].
      eapply Forall_impl; [| exact Hy].
      intros z Hz. unfold Qge' in *. eapply Qle_trans; eassumption.
    + assert (Hlt : (x < y)%Q).
      { apply Qnot_le_lt. intros H. apply Qle_bool_iff in H. congruence. }
      constructor; [apply IH, Ht |].
      eapply Permutation_Forall.
      * apply Permutation_sym, insert_desc_perm.
      * constructor; [apply Qlt_le_weak, Hlt | exact Hy].
Qed.

Lemma sort_desc_sorted (l : list Q) : StronglySorted Qge' (sort_desc l).
Proof.
  induction l as [| x t IH]; simpl.
  - constructor.
  - apply insert_desc_sorted, IH.
Qed.

Lemma sorted_split_dominates (l1 l2 : list Q) :
  StronglySorted Qge' (l1 ++ l2) ->
  forall x y, In x l1 -> In y l2 -> (y <= x)%Q.
Proof.
  induction l1 as [| a t IH]; intros Hs x y Hx Hy.
  - destruct Hx.
  - simpl in Hs. inversion Hs as [| ? ? Ht Ha]; subst.
    destruct Hx as [-> | Hx].
    + rewrite Forall_forall in Ha. apply Ha, in_or_app. right. exact Hy.
    + eapply IH; eassumption.
Qed.

Lemma nonzero_from_length (mask : list bool) (i : nat) :
  length (nonzero_from i mask) = length (filter (fun b => b) mask).
Proof.
  revert i. induction mask as [| b t IH]; intros i; simpl.
  - reflexivity.
  - destruct b; simpl; rewrite IH; reflexivity.
Qed.

Lemma nonzero_length (p : Z -> bool) (labels : list Z) :
  length (nonzero (map p labels)) = length (filter p labels).
Proof.
  unfold nonzero. rewrite nonzero_from_length.
  induction labels as [| l t IH]; simpl.
  - reflexivity.
  - destruct (p l); simpl; rewrite IH; reflexivity.
Qed.

Lemma index_nonzero_from (p : Z -> bool) (labels : list Z) :
  forall (pre losses : list Q),
    length losses = length labels ->
    index (pre ++ losses) (nonzero_from (length pre) (map p labels))
    = Ok (spec_losses_where p labels losses).
Proof.
  unfold index, spec_losses_where.
  induction labels as [| l t IH]; intros pre losses Hlen.
  - reflexivity.
  - destruct losses as [| x xs]; [discriminate |].
    simpl in Hlen. injection Hlen as Hlen.
    specialize (IH (pre ++ [x]) xs Hlen).
    rewrite <- app_assoc, length_app in IH. cbn [app length] in IH.
    rewrite Nat.add_1_r in IH.
    cbn [map nonzero_from combine filter fst].
    destruct (p l).
    + cbn [mapM map snd]. unfold getitem at 1.
      rewrite nth_error_app2 by lia. rewrite Nat.sub_diag. cbn [nth_error].
      rewrite IH. reflexivity.
    + exact IH.
Qed.

Lemma index_nonzero (p : Z -> bool) (labels : list Z) (losses : list Q) :
  length losses = length labels ->
  index losses (nonzero (map p labels)) = Ok (spec_losses_where p labels losses).
Proof. intros H. apply (index_nonzero_from p labels [] losses H). Qed.

Lemma spec_losses_where_length (p : Z -> bool) (labels : list Z)
    (losses : list Q) :
  length losses = length labels ->
  length (spec_losses_where p labels losses) = length (filter p labels).
Proof.
  unfold spec_losses_where. rewrite length_map.
  revert losses. induction labels as [| l t IH]; intros losses Hlen.
  - reflexivity.
  - destruct losses as [| x xs]; [discriminate |].
    simpl in Hlen. injection Hlen as Hlen. simpl.
    destruct (p l); simpl; rewrite IH by exact Hlen; reflexivity.
Qed.

Lemma spec_weighted_ce_length (ce : list Q -> Z -> Q)
    (cls_score : list (list Q)) (labels : list Z) (label_weights : list Q) :
  length cls_score = length labels ->
  length label_weights = length labels ->
  length (spec_weighted_ce ce cls_score labels label_weights) = length labels.
Proof.
  intros H1 H2. unfold spec_weighted_ce.
  rewrite length_map, length_combine, length_map, length_combine. lia.
Qed.

Section MiningFacts.

Variable ce : list Q -> Z -> Q.
Variables (cls_score : list (list Q)) (labels : list Z)
          (label_weights : list Q) (cfg : train_cfg).
Hypothesis Hscore : length cls_score = length labels.
Hypothesis Hweights : length label_weights = length labels.
Hypothesis Hratio : 0 <= neg_pos_ratio cfg.

(** On well-shaped inputs the mining step returns, with these fields. *)
Lemma mine_negatives_ok :
  mine_negatives ce cls_score labels label_weights cfg
  = Ok {| loss_cls_all := spec_weighted_ce ce cls_score labels label_weights;
          pos_inds := nonzero (map is_positive labels);
          neg_inds := nonzero (map is_negative labels);
          num_pos_samples := spec_num_pos labels;
          num_neg_samples := spec_num_neg cfg labels;
          topk_loss_cls_neg :=
            firstn (Z.to_nat (spec_num_neg cfg labels))
              (sort_desc
                 (spec_losses_where is_negative labels
                    (spec_weighted_ce ce cls_score labels label_weights))) |}.
Proof.
  unfold mine_negatives, cross_entropy_none.
  rewrite Hscore, Nat.eqb_refl. cbn [bind].
  unfold broadcast_mul.
  rewrite length_map, length_combine, Hscore, Nat.min_id, <- Hweights,
    Nat.eqb_refl.
  cbn [bind].
  fold (spec_weighted_ce ce cls_score labels label_weights).
  set (all := spec_weighted_ce ce cls_score labels label_weights).
  assert (Hall : length all = length labels)
    by (apply spec_weighted_ce_length; assumption).
  fold is_positive. fold is_negative.
  change (fun l : Z => (0 <? l)%Z) with is_positive.
  change (fun l : Z => (l =? 0)%Z) with is_negative.
  rewrite (index_nonzero is_negative labels all Hall). cbn [bind].
  rewrite !nonzero_length.
  fold (spec_num_pos labels).
  set (k := if (Z.of_nat (length (filter is_negative labels))
                <? neg_pos_ratio cfg * spec_num_pos labels)%Z
            then Z.of_nat (length (filter is_negative labels))
            else (neg_pos_ratio cfg * spec_num_pos labels)%Z).
  assert (Hk : k = spec_num_neg cfg labels).
  { unfold k, spec_num_neg.
    destruct (Z.ltb_spec (Z.of_nat (length (filter is_negative labels)))
                (neg_pos_ratio cfg * spec_num_pos labels)); lia. }
  assert (Hk0 : 0 <= k).
  { rewrite Hk. unfold spec_num_neg, spec_num_pos.
    apply Z.min_glb; [| lia]. apply Z.mul_nonneg_nonneg; lia. }
  assert (Hkn : k <= Z.of_nat (length (spec_losses_where is_negative labels all))).
  { rewrite spec_losses_where_length by exact Hall.
    rewrite Hk. unfold spec_num_neg. lia. }
  unfold topk.
  destruct (Z.ltb_spec k 0); [lia |].
  destruct (Z.ltb_spec
              (Z.of_nat (length (spec_losses_where is_negative labels all))) k);
    [lia |].
  cbn [orb bind]. rewrite Hk. reflexivity.
Qed.

End MiningFacts.

(** C3: in the per-image loss, on every well-shaped input (N logit rows, N
    labels, N label weights) with a non-negative [neg_pos_ratio], the mining
    step returns; the number of mined negatives is
    [min(neg_pos_ratio * num_pos, count of negatives)]; and the mined
    negatives are the top-k of the weighted cross-entropy losses of the
    label-0 anchors: together with the negatives left out they are a
    permutation of all negative losses, and none left out exceeds a mined
    one. *)
Theorem mining_selects_hardest
    (ce : list Q -> Z -> Q) (cls_score : list (list Q)) (labels : list Z)
    (label_weights : list Q) (cfg : train_cfg) :
  length cls_score = length labels ->
  length label_weights = length labels ->
  0 <= neg_pos_ratio cfg ->
  exists m : mined,
    mine_negatives ce cls_score labels label_weights cfg = Ok m /\
    loss_cls_all m = spec_weighted_ce ce cls_score labels label_weights /\
    num_pos_samples m = Z.of_nat (length (filter is_positive labels)) /\
    num_neg_samples m
    = Z.min (neg_pos_ratio cfg * num_pos_samples m)
            (Z.of_nat (length (filter is_negative labels))) /\
    Z.of_nat (length (topk_loss_cls_neg m)) = num_neg_samples m /\
    topk (spec_losses_where is_negative labels (loss_cls_all m))
         (num_neg_samples m) = Ok (topk_loss_cls_neg m) /\
    exists rest : list Q,
      Permutation (spec_losses_where is_negative labels (loss_cls_all m))
                  (topk_loss_cls_neg m ++ rest) /\
      forall x y, In x (topk_loss_cls_neg m) -> In y rest -> (y <= x)%Q.
Proof.
  intros Hscore Hweights Hratio.
  eexists. split; [apply mine_negatives_ok; assumption |].
  cbn [loss_cls_all num_pos_samples num_neg_samples topk_loss_cls_neg].
  set (all := spec_weighted_ce ce cls_score labels label_weights).
  set (negs := spec_losses_where is_negative labels all).
  assert (Hall : length all = length labels)
    by (apply spec_weighted_ce_length; assumption).
  assert (Hnegs : length negs = length (filter is_negative labels))
    by (apply spec_losses_where_length; exact Hall).
  assert (Hk0 : 0 <= spec_num_neg cfg labels).
  { unfold spec_num_neg, spec_num_pos.
    apply Z.min_glb; [| lia]. apply Z.mul_nonneg_nonneg; lia. }
  assert (Hkn : spec_num_neg cfg labels <= Z.of_nat (length negs))
    by (rewrite Hnegs; unfold spec_num_neg; lia).
  split; [reflexivity |]. split; [reflexivity |]. split; [reflexivity |].
  split.
  { rewrite length_firstn, sort_desc_length. lia. }
  split.
  { unfold topk.
    destruct (Z.ltb_spec (spec_num_neg cfg labels) 0); [lia |].
    destruct (Z.ltb_spec (Z.of_nat (length negs)) (spec_num_neg cfg labels));
      [lia | reflexivity]. }
  exists (skipn (Z.to_nat (spec_num_neg cfg labels)) (sort_desc negs)).
  split.
  - rewrite firstn_skipn. apply Permutation_sym, sort_desc_perm.
  - apply sorted_split_dominates. rewrite firstn_skipn.
    apply sort_desc_sorted.
Qed.

Lemma mining_selects_hardest_witness :
  exists m : mined,
    mine_negatives toy_cross_entropy toy_scores
      toy_labels toy_weights cfg3 = Ok m /\
    loss_cls_all m
    = spec_weighted_ce toy_cross_entropy toy_scores
        toy_labels toy_weights /\
    num_pos_samples m
    = Z.of_nat (length (filter is_positive toy_labels)) /\
    num_neg_samples m
    = Z.min (neg_pos_ratio cfg3 * num_pos_samples m)
            (Z.of_nat (length (filter is_negative toy_labels))) /\
    Z.of_nat (length (topk_loss_cls_neg m)) = num_neg_samples m /\
    topk (spec_losses_where is_negative toy_labels (loss_cls_all m))
         (num_neg_samples m) = Ok (topk_loss_cls_neg m) /\
    exists rest : list Q,
      Permutation
        (spec_losses_where is_negative toy_labels (loss_cls_all m))
        (topk_loss_cls_neg m ++ rest) /\
      forall x y, In x (topk_loss_cls_neg m) -> In y rest -> (y <= x)%Q.
Proof.
  apply (mining_selects_hardest toy_cross_entropy
           toy_scores toy_labels
           toy_weights cfg3).
  - reflexivity.
  - reflexivity.
  - simpl. lia.
Defined.

(* ================================================================== *)
(** * The per-image classification loss and its assertions              *)
(* ================================================================== *)

Lemma filter_nonempty {A} (p : A -> bool) (l : list A) (x : A) :
  In x l -> p x = true -> (0 < length (filter p l))%nat.
Proof.
  intros Hin Hp.
  assert (Hf : In x (filter p l)) by (apply filter_In; split; assumption).
  destruct (filter p l); [destruct Hf | simpl; lia].
Qed.

Lemma filter_empty {A} (p : A -> bool) (l : list A) :
  (forall x, In x l -> p x = false) -> length (filter p l) = 0%nat.
Proof.
  intros H. induction l as [| a t IH]; simpl.
  - reflexivity.
  - rewrite (H a) by (left; reflexivity). apply IH.
    intros x Hx. apply H. right. exact Hx.
Qed.

(** [loss_single] on well-shaped inputs: the three assertions decide. *)
Lemma loss_single_cases
    (ce : list Q -> Z -> Q)
    (sl1 : list (list Q) -> list (list Q) -> list (list Q) -> Q -> Z
           -> result Q)
    (cls_score bbox_pred : list (list Q)) (labels : list Z)
    (label_weights : list Q) (bbox_targets bbox_weights : list (list Q))
    (n : Z) (cfg : train_cfg) :
  length cls_score = length labels ->
  length label_weights = length labels ->
  0 <= neg_pos_ratio cfg ->
  loss_single ce sl1 cls_score bbox_pred labels label_weights
    bbox_targets bbox_weights n cfg
  = if ((0 <? spec_num_pos labels) && (0 <? spec_num_neg cfg labels)
        && (0 <? n))%bool
    then bind (sl1 bbox_pred bbox_targets bbox_weights (smoothl1_beta cfg) n)
           (fun lb =>
              Ok ([spec_loss_cls ce cls_score labels label_weights n cfg], lb))
    else Raise (AssertionError EmptyString).
Proof.
  intros Hscore Hweights Hratio. unfold loss_single.
  rewrite mine_negatives_ok by assumption.
  cbn [bind loss_cls_all pos_inds num_pos_samples num_neg_samples
       topk_loss_cls_neg].
  unfold assert, assert_msg.
  destruct (0 <? spec_num_pos labels); [| reflexivity].
  destruct (0 <? spec_num_neg cfg labels); [| reflexivity].
  destruct (0 <? n); [| reflexivity].
  cbn [bind andb].
  rewrite index_nonzero by (apply spec_weighted_ce_length; assumption).
  reflexivity.
Qed.

(** C4 (as amended): for every well-shaped image with at least one positive
    anchor, at least one label-0 anchor, a positive [neg_pos_ratio] and a
    positive [num_total_samples] (and whose regression loss is returned),
    the classification loss returned by the per-image loss is exactly
    (sum of positive-anchor losses + sum of selected hard-negative losses)
    divided by [num_total_samples]. *)
Theorem loss_cls_normalised
    (ce : list Q -> Z -> Q)
    (sl1 : list (list Q) -> list (list Q) -> list (list Q) -> Q -> Z
           -> result Q)
    (cls_score bbox_pred : list (list Q)) (labels : list Z)
    (label_weights : list Q) (bbox_targets bbox_weights : list (list Q))
    (n : Z) (cfg : train_cfg) (lb : Q) :
  length cls_score = length labels ->
  length label_weights = length labels ->
  (exists l, In l labels /\ 0 < l) ->
  In 0 labels ->
  0 < neg_pos_ratio cfg ->
  0 < n ->
  sl1 bbox_pred bbox_targets bbox_weights (smoothl1_beta cfg) n = Ok lb ->
  loss_single ce sl1 cls_score bbox_pred labels label_weights
    bbox_targets bbox_weights n cfg
  = Ok ([((qsum (spec_losses_where is_positive labels
                   (spec_weighted_ce ce cls_score labels label_weights))
           + qsum (firstn (Z.to_nat (spec_num_neg cfg labels))
                     (sort_desc
                        (spec_losses_where is_negative labels
                           (spec_weighted_ce ce cls_score labels
                              label_weights)))))
          / inject_Z n)%Q], lb).
Proof.
  intros Hscore Hweights [l [Hin Hl]] Hneg Hratio Hn Hsl1.
  rewrite loss_single_cases by (assumption || lia).
  assert (Hpos : 0 < spec_num_pos labels).
  { unfold spec_num_pos.
    pose proof (filter_nonempty is_positive labels l Hin) as H.
    unfold is_positive at 1 in H.
    destruct (Z.ltb_spec 0 l); [| lia]. specialize (H eq_refl). lia. }
  assert (Hnn : 0 < spec_num_neg cfg labels).
  { unfold spec_num_neg.
    pose proof (filter_nonempty is_negative labels 0 Hneg eq_refl) as H.
    apply Z.min_glb_lt; [| lia]. apply Z.mul_pos_pos; assumption. }
  destruct (Z.ltb_spec 0 (spec_num_pos labels)); [| lia].
  destruct (Z.ltb_spec 0 (spec_num_neg cfg labels)); [| lia].
  destruct (Z.ltb_spec 0 n); [| lia].
  cbn [andb]. rewrite Hsl1. reflexivity.
Qed.

Lemma loss_cls_normalised_witness :
  loss_single toy_cross_entropy toy_smooth_l1
    toy_scores [] toy_labels
    toy_weights [] [] 10 cfg3
  = Ok ([((qsum (spec_losses_where is_positive toy_labels
                   (spec_weighted_ce toy_cross_entropy
                      toy_scores toy_labels
                      toy_weights))
           + qsum (firstn (Z.to_nat (spec_num_neg cfg3 toy_labels))
                     (sort_desc
                        (spec_losses_where is_negative toy_labels
                           (spec_weighted_ce toy_cross_entropy
                              toy_scores
                              toy_labels
                              toy_weights)))))
          / inject_Z 10)%Q], (0 / inject_Z 10)%Q).
Proof.
  apply (loss_cls_normalised toy_cross_entropy toy_smooth_l1
           toy_scores [] toy_labels
           toy_weights [] [] 10 cfg3).
  - reflexivity.
  - reflexivity.
  - exists 1. split; [simpl; auto | lia].
  - simpl. auto.
  - simpl. lia.
  - lia.
  - reflexivity.
Defined.

(** C4, as stated, fails: an image whose only anchor is positive has a
    positive anchor, yet the per-image loss raises instead of returning a
    classification loss. *)
Lemma loss_cls_no_negatives_counterexample :
  (exists l, In l [1] /\ 0 < l) /\
  loss_single toy_cross_entropy toy_smooth_l1 [[2%Q; 0%Q]]
    [[0%Q; 0%Q; 0%Q; 0%Q]] [1] [1%Q] [[0%Q; 0%Q; 0%Q; 0%Q]]
    [[1%Q; 1%Q; 1%Q; 1%Q]] 10 cfg3
  = Raise (AssertionError EmptyString) /\
  ~ returns
      (loss_single toy_cross_entropy toy_smooth_l1 [[2%Q; 0%Q]]
         [[0%Q; 0%Q; 0%Q; 0%Q]] [1] [1%Q] [[0%Q; 0%Q; 0%Q; 0%Q]]
         [[1%Q; 1%Q; 1%Q; 1%Q]] 10 cfg3).
Proof.
  split; [exists 1; split; [simpl; auto | lia] |].
  split; [reflexivity |].
  intros [x Hx]. vm_compute in Hx. discriminate.
Qed.

(** C10: on every well-shaped input with a non-negative [neg_pos_ratio],
    the per-image loss raises an assertion failure when no anchor has label
    0 or when [num_total_samples] is not positive, whether or not positive
    anchors exist; whenever it returns, [num_pos > 0], the mined-negative
    count is positive and [num_total_samples > 0] hold together. *)
Theorem loss_single_preconditions
    (ce : list Q -> Z -> Q)
    (sl1 : list (list Q) -> list (list Q) -> list (list Q) -> Q -> Z
           -> result Q)
    (cls_score bbox_pred : list (list Q)) (labels : list Z)
    (label_weights : list Q) (bbox_targets bbox_weights : list (list Q))
    (n : Z) (cfg : train_cfg) :
  length cls_score = length labels ->
  length label_weights = length labels ->
  0 <= neg_pos_ratio cfg ->
  (~ In 0 labels \/ n <= 0 ->
   loss_single ce sl1 cls_score bbox_pred labels label_weights
     bbox_targets bbox_weights n cfg
   = Raise (AssertionError EmptyString)) /\
  (returns (loss_single ce sl1 cls_score bbox_pred labels label_weights
              bbox_targets bbox_weights n cfg) ->
   0 < Z.of_nat (length (filter is_positive labels)) /\
   0 < Z.min (neg_pos_ratio cfg
              * Z.of_nat (length (filter is_positive labels)))
             (Z.of_nat (length (filter is_negative labels))) /\
   0 < n).
Proof.
  intros Hscore Hweights Hratio.
  rewrite loss_single_cases by assumption.
  fold (spec_num_pos labels). fold (spec_num_neg cfg labels).
  split.
  - intros H.
    assert (Hz : spec_num_neg cfg labels <= 0 \/ n <= 0).
    { destruct H as [Hno | Hn]; [left | right; exact Hn].
      unfold spec_num_neg.
      rewrite (filter_empty is_negative labels).
      - apply Z.le_min_r.
      - intros x Hx. unfold is_negative.
        destruct (Z.eqb_spec x 0) as [-> | _]; [contradiction | reflexivity]. }
    destruct (Z.ltb_spec 0 (spec_num_pos labels)); [| reflexivity].
    destruct (Z.ltb_spec 0 (spec_num_neg cfg labels)); [| reflexivity].
    destruct (Z.ltb_spec 0 n); [| reflexivity]. lia.
  - intros [r Hr].
    destruct (Z.ltb_spec 0 (spec_num_pos labels)); [| discriminate].
    destruct (Z.ltb_spec 0 (spec_num_neg cfg labels)); [| discriminate].
    destruct (Z.ltb_spec 0 n); [| discriminate].
    unfold spec_num_neg, spec_num_pos in *. lia.
Qed.

Lemma loss_single_preconditions_witness :
  (~ In 0 [1; 1] \/ 10 <= 0 ->
   loss_single toy_cross_entropy toy_smooth_l1 [[2%Q; 0%Q]; [4%Q; 0%Q]] []
     [1; 1] [1%Q; 1%Q] [] [] 10 cfg3
   = Raise (AssertionError EmptyString)) /\
  (returns (loss_single toy_cross_entropy toy_smooth_l1
              [[2%Q; 0%Q]; [4%Q; 0%Q]] [] [1; 1] [1%Q; 1%Q] [] [] 10 cfg3) ->
   0 < Z.of_nat (length (filter is_positive [1; 1])) /\
   0 < Z.min (neg_pos_ratio cfg3
              * Z.of_nat (length (filter is_positive [1; 1])))
             (Z.of_nat (length (filter is_negative [1; 1]))) /\
   0 < 10).
Proof.
  apply (loss_single_preconditions toy_cross_entropy toy_smooth_l1
           [[2%Q; 0%Q]; [4%Q; 0%Q]] [] [1; 1] [1%Q; 1%Q] [] [] 10 cfg3).
  - reflexivity.
  - reflexivity.
  - simpl. lia.
Defined.

(* ================================================================== *)
(** * The batch loss ([loss], lines 181-252)                            *)
(* ================================================================== *)

Lemma aggregate_nonempty (num_images : nat)
    (cls_scores bbox_preds : list (list (list (list fval)))) (t : targets)
    (b : batch) :
  aggregate num_images cls_scores bbox_preds t = Ok b -> cls_scores <> [].
Proof.
  intros H E. subst cls_scores. discriminate H.
Qed.

Lemma getitem_head {A} (l : list A) :
  l <> [] -> exists x, getitem l 0 = Ok x.
Proof.
  destruct l as [| x t]; [contradiction |]. intros _. exists x. reflexivity.
Qed.

(** When the assigner returns [None] the loss returns [None], whatever the
    predictions hold. *)
Lemma loss_with_no_assignment
    (per_image : list (list Q) -> list (list Q) -> list Z -> list Q ->
                 list (list Q) -> list (list Q) -> Z -> train_cfg ->
                 result (list Q * Q))
    (self : loss_self)
    (cls_scores bbox_preds : list (list (list (list fval))))
    (num_images : nat) (cfg : train_cfg) :
  length cls_scores = num_anchor_generators self ->
  cls_scores <> [] ->
  loss_with per_image self cls_scores bbox_preds num_images None cfg = Ok None.
Proof.
  intros Hlen Hne. unfold loss_with, assert, assert_msg.
  rewrite Hlen, Nat.eqb_refl. cbn [bind].
  destruct (getitem_head cls_scores Hne) as [x Hx]. rewrite Hx. reflexivity.
Qed.

(** [loss] once the per-image views exist. *)
Lemma loss_with_after_aggregate
    (per_image : list (list Q) -> list (list Q) -> list Z -> list Q ->
                 list (list Q) -> list (list Q) -> Z -> train_cfg ->
                 result (list Q * Q))
    (self : loss_self)
    (cls_scores bbox_preds : list (list (list (list fval))))
    (num_images : nat) (t : targets) (cfg : train_cfg) (b : batch) :
  length cls_scores = num_anchor_generators self ->
  aggregate num_images cls_scores bbox_preds t = Ok b ->
  loss_with per_image self cls_scores bbox_preds num_images (Some t) cfg
  = bind (assert_msg (all_finite (all_cls_scores b)) msg_cls) (fun _ =>
    bind (assert_msg (all_finite (all_bbox_preds b)) msg_bbox) (fun _ =>
    bind (multi_apply
            (fun s p l w bt bw =>
               per_image s p l w bt bw (num_total_pos t) cfg)
            (rationals (all_cls_scores b)) (rationals (all_bbox_preds b))
            (all_labels b) (all_label_weights b)
            (all_bbox_targets b) (all_bbox_weights b))
      (fun r =>
         if loss_balancing self then
           Ok (Some
                 {| loss_cls :=
                      Tensor (fst (_balance_losses (loss_weights self)
                                     (map (fun l => Vec (map Q2R l)) (fst r))
                                     (map (fun x => Scalar (Q2R x)) (snd r))));
                    loss_bbox :=
                      TensorList (map (fun x => Scalar (Q2R x)) (snd r)) |})
         else
           Ok (Some
                 {| loss_cls :=
                      TensorList (map (fun l => Vec (map Q2R l)) (fst r));
                    loss_bbox :=
                      TensorList (map (fun x => Scalar (Q2R x)) (snd r)) |})))).
Proof.
  intros Hlen Hagg. unfold loss_with, assert at 1, assert_msg at 1.
  rewrite Hlen, Nat.eqb_refl. cbn [bind].
  destruct (getitem_head cls_scores (aggregate_nonempty _ _ _ _ _ Hagg))
    as [x Hx].
  rewrite Hx. cbn [bind]. rewrite Hagg. reflexivity.
Qed.

(** C8 (as amended): once the feature-map count matches, the assigner has
    returned an assignment and the per-image views are built, a non-finite
    value among the aggregated classification scores or box predictions
    makes the batch loss raise the assertion of the finiteness check,
    whatever the per-image loss is (it is not consulted); with finite
    predictions the batch loss raises exactly when some per-image loss
    raises. *)
Theorem nonfinite_check_precedes_per_image_loss
    (self : loss_self)
    (cls_scores bbox_preds : list (list (list (list fval))))
    (num_images : nat) (t : targets) (cfg : train_cfg) (b : batch) :
  length cls_scores = num_anchor_generators self ->
  aggregate num_images cls_scores bbox_preds t = Ok b ->
  (all_finite (all_cls_scores b) = false \/
   all_finite (all_bbox_preds b) = false ->
   exists msg, (msg = msg_cls \/ msg = msg_bbox) /\
     forall per_image,
       loss_with per_image self cls_scores bbox_preds num_images (Some t) cfg
       = Raise (AssertionError msg)) /\
  (all_finite (all_cls_scores b) = true ->
   all_finite (all_bbox_preds b) = true ->
   forall per_image,
     raises (loss_with per_image self cls_scores bbox_preds num_images
               (Some t) cfg)
     <-> raises (multi_apply
                   (fun s p l w bt bw =>
                      per_image s p l w bt bw (num_total_pos t) cfg)
                   (rationals (all_cls_scores b))
                   (rationals (all_bbox_preds b))
                   (all_labels b) (all_label_weights b)
                   (all_bbox_targets b) (all_bbox_weights b))).
Proof.
  intros Hlen Hagg. split.
  - intros Hnf.
    destruct (all_finite (all_cls_scores b)) eqn:Ec.
    + destruct Hnf as [Hc | Hb]; [discriminate |].
      exists msg_bbox. split; [right; reflexivity |].
      intros per_image.
      rewrite (loss_with_after_aggregate per_image _ _ _ _ _ _ _ Hlen Hagg).
      rewrite Ec, Hb. reflexivity.
    + exists msg_cls. split; [left; reflexivity |].
      intros per_image.
      rewrite (loss_with_after_aggregate per_image _ _ _ _ _ _ _ Hlen Hagg).
      rewrite Ec. reflexivity.
  - intros Hc Hb per_image.
    rewrite (loss_with_after_aggregate per_image _ _ _ _ _ _ _ Hlen Hagg).
    rewrite Hc, Hb. cbn [assert_msg bind].
    destruct (multi_apply _ _ _ _ _ _ _) as [r | e]; cbn [bind].
    + split; intros [e He].
      * destruct (loss_balancing self); discriminate He.
      * discriminate He.
    + split; intros _; exists e; reflexivity.
Qed.

Lemma nonfinite_check_precedes_per_image_loss_witness :
  (all_finite (all_cls_scores pair_batch) = false \/
   all_finite (all_bbox_preds pair_batch) = false ->
   exists msg, (msg = msg_cls \/ msg = msg_bbox) /\
     forall per_image,
       loss_with per_image plain_head pair_scores pair_boxes 2
         (Some pair_targets) cfg3
       = Raise (AssertionError msg)) /\
  (all_finite (all_cls_scores pair_batch) = true ->
   all_finite (all_bbox_preds pair_batch) = true ->
   forall per_image,
     raises (loss_with per_image plain_head pair_scores pair_boxes 2
               (Some pair_targets) cfg3)
     <-> raises (multi_apply
                   (fun s p l w bt bw =>
                      per_image s p l w bt bw (num_total_pos pair_targets)
                        cfg3)
                   (rationals (all_cls_scores pair_batch))
                   (rationals (all_bbox_preds pair_batch))
                   (all_labels pair_batch) (all_label_weights pair_batch)
                   (all_bbox_targets pair_batch)
                   (all_bbox_weights pair_batch))).
Proof.
  apply (nonfinite_check_precedes_per_image_loss plain_head pair_scores
           pair_boxes 2 pair_targets cfg3 pair_batch).
  - reflexivity.
  - reflexivity.
Defined.

(** C8, as stated, fails: a batch whose predictions are all finite, but
    whose only anchor is background, makes the batch loss raise. *)
Lemma finite_batch_raises_counterexample :
  aggregate 1 background_scores background_boxes background_targets
  = Ok background_batch /\
  all_finite (all_cls_scores background_batch) = true /\
  all_finite (all_bbox_preds background_batch) = true /\
  loss toy_cross_entropy toy_smooth_l1 plain_head background_scores
    background_boxes 1 (Some background_targets) cfg3
  = Raise (AssertionError EmptyString) /\
  ~ (raises (loss toy_cross_entropy toy_smooth_l1 plain_head
               background_scores background_boxes 1
               (Some background_targets) cfg3)
     <-> (all_finite (all_cls_scores background_batch) = false \/
          all_finite (all_bbox_preds background_batch) = false)).
Proof.
  split; [reflexivity |]. split; [reflexivity |]. split; [reflexivity |].
  split; [reflexivity |].
  intros [H _].
  destruct H as [H | H]; [eexists; reflexivity | |]; discriminate H.
Qed.

(* ================================================================== *)
(** * The loss balancer ([_balance_losses], lines 254-263)              *)
(* ================================================================== *)

Lemma fold_left_Rplus (l : list R) (a : R) :
  fold_left Rplus l a = (a + rsum l)%R.
Proof.
  revert a. induction l as [| x t IH]; intros a; simpl.
  - lra.
  - rewrite IH. lra.
Qed.

Lemma py_sum_rsum (l : list R) : py_sum l = rsum l.
Proof. unfold py_sum. rewrite fold_left_Rplus. lra. Qed.

(** The balancer in closed form: each term is the sum over images of the
    per-image means. *)
Lemma balance_losses_sums (w : R * R) (losses_cls losses_reg : list tensor) :
  _balance_losses w losses_cls losses_reg
  = ((exp (- fst w) * rsum (map mean losses_cls) + 0.5 * fst w)%R,
     (exp (- snd w) * rsum (map mean losses_reg) + 0.5 * snd w)%R).
Proof. unfold _balance_losses. rewrite !py_sum_rsum. reflexivity. Qed.

Lemma mean_singletons (lc : list (list Q)) :
  Forall (fun l => exists x, l = [x]) lc ->
  map mean (map (fun l => Vec (map Q2R l)) lc) = map Q2R (concat lc) /\
  length (concat lc) = length lc.
Proof.
  induction 1 as [| l t [x ->] _ [IH1 IH2]]; simpl.
  - split; reflexivity.
  - rewrite IH1, IH2. split; [| reflexivity].
    f_equal. unfold rsum. simpl. field.
Qed.

Lemma mean_scalars (lb : list Q) :
  map mean (map (fun x => Scalar (Q2R x)) lb) = map Q2R lb.
Proof. rewrite map_map. reflexivity. Qed.

Lemma loss_single_singleton
    (ce : list Q -> Z -> Q)
    (sl1 : list (list Q) -> list (list Q) -> list (list Q) -> Q -> Z
           -> result Q)
    (s p : list (list Q)) (l : list Z) (w : list Q) (bt bw : list (list Q))
    (n : Z) (cfg : train_cfg) (r : list Q * Q) :
  loss_single ce sl1 s p l w bt bw n cfg = Ok r -> exists x, fst r = [x].
Proof.
  unfold loss_single, assert, assert_msg. intros H.
  repeat match type of H with
         | bind ?m _ = Ok _ => destruct m; cbn [bind] in H; try discriminate H
         | context [if ?c then _ else _] =>
             destruct c; cbn [bind] in H; try discriminate H
         end.
  injection H as <-. eexists. reflexivity.
Qed.

Lemma multi_apply_singletons
    (ce : list Q -> Z -> Q)
    (sl1 : list (list Q) -> list (list Q) -> list (list Q) -> Q -> Z
           -> result Q)
    (n : Z) (cfg : train_cfg)
    (a1 a2 : list (list (list Q))) :
  forall (a3 : list (list Z)) (a4 : list (list Q))
         (a5 a6 : list (list (list Q))) (lc : list (list Q)) (lb : list Q),
    multi_apply
      (fun s p l w bt bw => loss_single ce sl1 s p l w bt bw n cfg)
      a1 a2 a3 a4 a5 a6 = Ok (lc, lb) ->
    Forall (fun l => exists x, l = [x]) lc.
Proof.
  revert a2. induction a1 as [| x1 t1 IH]; intros a2 a3 a4 a5 a6 lc lb H.
  - simpl in H. injection H as <- <-. constructor.
  - destruct a2 as [| x2 t2], a3 as [| x3 t3], a4 as [| x4 t4],
      a5 as [| x5 t5], a6 as [| x6 t6];
      simpl in H; try (injection H as <- <-; constructor).
    destruct (loss_single ce sl1 x1 x2 x3 x4 x5 x6 n cfg) as [r | e] eqn:E1;
      cbn [bind] in H; [| discriminate H].
    destruct (multi_apply _ t1 t2 t3 t4 t5 t6) as [[lc' lb'] | e] eqn:E2;
      cbn [bind] in H; [| discriminate H].
    injection H as <- <-. constructor.
    + eapply loss_single_singleton. exact E1.
    + eapply IH. exact E2.
Qed.

(** C1 (as amended): when loss balancing is enabled and the batch loss
    reaches the balancer (matching feature-map count, an assignment, finite
    predictions, per-image losses returned), it returns as classification
    term [exp(-w_cls) * S_cls + 0.5 * w_cls], where [S_cls] is the SUM over
    the images of the per-image classification losses (one per image, i.e.
    the number of images times their mean); the balancer computes
    [exp(-w_reg) * S_reg + 0.5 * w_reg] likewise from the sum of the
    per-image regression losses. *)
Theorem balanced_loss_sums_over_images
    (ce : list Q -> Z -> Q)
    (sl1 : list (list Q) -> list (list Q) -> list (list Q) -> Q -> Z
           -> result Q)
    (self : loss_self)
    (cls_scores bbox_preds : list (list (list (list fval))))
    (num_images : nat) (t : targets) (cfg : train_cfg) (b : batch)
    (lc : list (list Q)) (lb : list Q) :
  length cls_scores = num_anchor_generators self ->
  aggregate num_images cls_scores bbox_preds t = Ok b ->
  all_finite (all_cls_scores b) = true ->
  all_finite (all_bbox_preds b) = true ->
  multi_apply
    (fun s p l w bt bw =>
       loss_single ce sl1 s p l w bt bw (num_total_pos t) cfg)
    (rationals (all_cls_scores b)) (rationals (all_bbox_preds b))
    (all_labels b) (all_label_weights b)
    (all_bbox_targets b) (all_bbox_weights b) = Ok (lc, lb) ->
  loss_balancing self = true ->
  exists d : loss_dict,
    loss ce sl1 self cls_scores bbox_preds num_images (Some t) cfg
    = Ok (Some d) /\
    length (concat lc) = length lc /\
    loss_cls d
    = Tensor (exp (- fst (loss_weights self)) * rsum (map Q2R (concat lc))
              + 0.5 * fst (loss_weights self))%R /\
    snd (_balance_losses (loss_weights self)
           (map (fun l => Vec (map Q2R l)) lc)
           (map (fun x => Scalar (Q2R x)) lb))
    = (exp (- snd (loss_weights self)) * rsum (map Q2R lb)
       + 0.5 * snd (loss_weights self))%R /\
    (lc <> [] ->
     rsum (map Q2R (concat lc))
     = (INR (length lc) * spec_mean_across (map Q2R (concat lc)))%R).
Proof.
  intros Hlen Hagg Hc Hb Hma Hbal.
  pose proof (multi_apply_singletons _ _ _ _ _ _ _ _ _ _ _ _ Hma) as Hsing.
  destruct (mean_singletons lc Hsing) as [Hmean Hcount].
  unfold loss.
  rewrite (loss_with_after_aggregate _ _ _ _ _ _ _ _ Hlen Hagg).
  rewrite Hc, Hb. cbn [assert_msg bind]. rewrite Hma. cbn [bind fst snd].
  rewrite Hbal. eexists. split; [reflexivity |].
  cbn [loss_cls]. rewrite balance_losses_sums. cbn [fst snd].
  rewrite Hmean, mean_scalars.
  split; [exact Hcount |]. split; [reflexivity |]. split; [reflexivity |].
  intros Hne. unfold spec_mean_across.
  rewrite length_map, Hcount.
  assert (HI : INR (length lc) <> 0%R).
  { apply not_0_INR. destruct lc; [contradiction | discriminate]. }
  field. exact HI.
Qed.

Lemma balanced_loss_sums_over_images_witness :
  exists d : loss_dict,
    loss toy_cross_entropy toy_smooth_l1 balancing_head pair_scores
      pair_boxes 2 (Some pair_targets) cfg3
    = Ok (Some d) /\
    length (concat [[(4 # 2)%Q]; [(6 # 2)%Q]])
    = length [[(4 # 2)%Q]; [(6 # 2)%Q]] /\
    loss_cls d
    = Tensor (exp (- fst (loss_weights balancing_head))
              * rsum (map Q2R (concat [[(4 # 2)%Q]; [(6 # 2)%Q]]))
              + 0.5 * fst (loss_weights balancing_head))%R /\
    snd (_balance_losses (loss_weights balancing_head)
           (map (fun l => Vec (map Q2R l)) [[(4 # 2)%Q]; [(6 # 2)%Q]])
           (map (fun x => Scalar (Q2R x)) [(0 # 2)%Q; (0 # 2)%Q]))
    = (exp (- snd (loss_weights balancing_head))
       * rsum (map Q2R [(0 # 2)%Q; (0 # 2)%Q])
       + 0.5 * snd (loss_weights balancing_head))%R /\
    ([[(4 # 2)%Q]; [(6 # 2)%Q]] <> [] ->
     rsum (map Q2R (concat [[(4 # 2)%Q]; [(6 # 2)%Q]]))
     = (INR (length [[(4 # 2)%Q]; [(6 # 2)%Q]])
        * spec_mean_across (map Q2R (concat [[(4 # 2)%Q]; [(6 # 2)%Q]])))%R).
Proof.
  apply (balanced_loss_sums_over_images toy_cross_entropy toy_smooth_l1
           balancing_head pair_scores pair_boxes 2 pair_targets cfg3
           pair_batch [[(4 # 2)%Q]; [(6 # 2)%Q]] [(0 # 2)%Q; (0 # 2)%Q]).
  - reflexivity.
  - reflexivity.
  - reflexivity.
  - reflexivity.
  - vm_compute. reflexivity.
  - reflexivity.
Defined.

(** C1, as stated, fails: for two images with classification losses 1 and 3
    and zero weights the balancer returns [exp(0) * (1 + 3) = 4], not
    [exp(0) * mean = 2]. *)
Lemma balance_two_images_counterexample :
  fst (_balance_losses (0%R, 0%R) [Vec [1%R]; Vec [3%R]]
         [Scalar 2%R; Scalar 4%R])
  <> (exp (- 0) * spec_mean_across [1%R; 3%R] + 0.5 * 0)%R.
Proof.
  rewrite balance_losses_sums. cbn [fst map mean length].
  unfold spec_mean_across, rsum. cbn [fold_right length INR].
  rewrite Ropp_0, exp_0. lra.
Qed.

(** With balancing enabled the dictionary still carries the per-image
    regression losses: the balanced regression term is computed and
    dropped. *)
Lemma balanced_loss_keeps_per_image_bbox :
  exists d : loss_dict,
    loss toy_cross_entropy toy_smooth_l1 balancing_head pair_scores
      pair_boxes 2 (Some pair_targets) cfg3 = Ok (Some d) /\
    loss_bbox d = TensorList [Scalar (Q2R (0 # 2)); Scalar (Q2R (0 # 2))].
Proof.
  unfold loss.
  rewrite (loss_with_after_aggregate _ balancing_head pair_scores pair_boxes
             2 pair_targets cfg3 pair_batch eq_refl eq_refl).
  change (all_finite (all_cls_scores pair_batch)) with true.
  change (all_finite (all_bbox_preds pair_batch)) with true.
  cbn [assert_msg bind].
  replace (multi_apply _ _ _ _ _ _ _)
    with (@Ok (list (list Q) * list Q)
            ([[(4 # 2)%Q]; [(6 # 2)%Q]], [(0 # 2)%Q; (0 # 2)%Q]))
    by (vm_compute; reflexivity).
  cbn [bind]. eexists. split; reflexivity.
Qed.

(* ================================================================== *)
(** * Loops that stop at the first exception                            *)
(* ================================================================== *)

Lemma mapM_length {A B} (f : A -> result B) (l : list A) (ys : list B) :
  mapM f l = Ok ys -> length ys = length l.
Proof.
  revert ys. induction l as [| x t IH]; intros ys H; simpl in H.
  - injection H as <-. reflexivity.
  - destruct (f x) as [y | e]; [| discriminate H].
    destruct (mapM f t) as [ys' | e]; [| discriminate H].
    injection H as <-. simpl. f_equal. apply IH. reflexivity.
Qed.

Lemma mapM_nth {A B} (f : A -> result B) (l : list A) (ys : list B) :
  mapM f l = Ok ys ->
  forall k y, nth_error ys k = Some y ->
              exists x, nth_error l k = Some x /\ f x = Ok y.
Proof.
  revert ys. induction l as [| x t IH]; intros ys H k y Hk; simpl in H.
  - injection H as <-. destruct k; discriminate Hk.
  - destruct (f x) as [y0 | e] eqn:E; [| discriminate H].
    destruct (mapM f t) as [ys' | e]; [| discriminate H].
    injection H as <-. destruct k as [| k].
    + injection Hk as <-. exists x. split; [reflexivity | exact E].
    + simpl in Hk. simpl. eapply IH; [reflexivity | exact Hk].
Qed.

Lemma mapM_map {A B} (f : A -> result B) (g : A -> B) (l : list A) :
  (forall x, In x l -> f x = Ok (g x)) -> mapM f l = Ok (map g l).
Proof.
  induction l as [| x t IH]; intros H; simpl.
  - reflexivity.
  - rewrite (H x) by (left; reflexivity).
    rewrite IH by (intros y Hy; apply H; right; exact Hy). reflexivity.
Qed.


(* ================================================================== *)
(** * What a successful constructor has built                            *)
(* ================================================================== *)

Lemma init_inv (c : config) (h : head) :
  init c = Ok h ->
  exists na convs gens,
    num_anchors c = Ok na /\
    build_convs c na = Ok convs /\
    (if negb (Nat.eqb (length (anchor_heights c)) 0)
     then explicit_generators c else derived_generators c) = Ok gens /\
    h = {| head_num_anchors := na; head_convs := convs;
           anchor_generators := gens |}.
Proof.
  unfold init. intros H.
  destruct (num_anchors c) as [na | e] eqn:E1; [| discriminate H].
  cbn [bind] in H.
  destruct (build_convs c na) as [convs | e] eqn:E2; [| discriminate H].
  cbn [bind] in H.
  destruct (if negb (Nat.eqb (length (anchor_heights c)) 0)
            then explicit_generators c else derived_generators c)
    as [gens | e] eqn:E3; [| discriminate H].
  cbn [bind] in H. injection H as <-.
  exists na, convs, gens.
  repeat split; first [reflexivity | assumption].
Qed.

Lemma generators_inv (c : config) (gens : list AnchorGenerator) :
  (if negb (Nat.eqb (length (anchor_heights c)) 0)
   then explicit_generators c else derived_generators c) = Ok gens ->
  exists level : nat -> result AnchorGenerator,
    mapM level (seq 0 (length (anchor_strides c))) = Ok gens /\
    ((anchor_heights c <> [] /\ level = explicit_level c) \/
     (anchor_heights c = [] /\
      exists mins maxs,
        derive_sizes (input_size c) (basesize_ratio_range c)
          (length (in_channels c)) = Ok (mins, maxs) /\
        level = derived_level c mins maxs)).
Proof.
  intros H. destruct (anchor_heights c) as [| h0 hs] eqn:Eh.
  - cbn [length Nat.eqb negb] in H. unfold derived_generators in H.
    destruct (derive_sizes _ _ _) as [[mins maxs] | e]; [| discriminate H].
    cbn [bind fst snd] in H.
    exists (derived_level c mins maxs). split; [exact H |].
    right. split; [reflexivity |]. exists mins, maxs. split; reflexivity.
  - cbn [length Nat.eqb negb] in H. unfold explicit_generators in H.
    destruct (assert _) as [u | e]; [| discriminate H]. cbn [bind] in H.
    exists (explicit_level c). split; [exact H |].
    left. split; [discriminate | reflexivity].
Qed.

(** X1: a successful constructor has one anchor generator per stride and one
    regressor/classifier pair per input channel entry. *)
Theorem init_level_counts (c : config) (h : head) :
  init c = Ok h ->
  length (anchor_generators h) = length (anchor_strides c) /\
  length (head_convs h) = length (in_channels c).
Proof.
  intros H. destruct (init_inv c h H) as (na & convs & gens & _ & Hc & Hg & ->).
  cbn [anchor_generators head_convs].
  destruct (generators_inv c gens Hg) as (level & Hm & _).
  apply mapM_length in Hm. apply mapM_length in Hc.
  rewrite length_seq in Hm, Hc. split; assumption.
Qed.

Lemma init_level_counts_witness :
  length (anchor_generators default_head)
  = length (anchor_strides default_config) /\
  length (head_convs default_head) = length (in_channels default_config).
Proof.
  apply (init_level_counts default_config default_head).
  vm_compute. reflexivity.
Defined.

Lemma build_conv_inv (c : config) (na : list Z) (i : nat) (conv : head_conv) :
  build_conv c na i = Ok conv ->
  exists ch n,
    nth_error (in_channels c) i = Some ch /\
    nth_error na i = Some n /\
    conv_in conv = ch /\
    reg_out conv = n * 4 /\
    cls_out conv = n * num_classes c.
Proof.
  unfold build_conv, getitem. intros H.
  destruct (depthwise_heads c).
  - destruct (activation_class _) as [act | e]; [| discriminate H].
    cbn [bind] in H.
    destruct (nth_error (in_channels c) i) as [ch |]; [| discriminate H].
    cbn [bind] in H.
    destruct (nth_error na i) as [n |]; [| discriminate H].
    cbn [bind] in H. injection H as <-.
    exists ch, n. repeat split; reflexivity.
  - destruct (nth_error (in_channels c) i) as [ch |]; [| discriminate H].
    cbn [bind] in H.
    destruct (nth_error na i) as [n |]; [| discriminate H].
    cbn [bind] in H. injection H as <-.
    exists ch, n. repeat split; reflexivity.
Qed.

(** X2: in a successfully built head the level-[i] regressor has
    [4 * num_anchors[i]] output channels and the classifier
    [num_anchors[i] * num_classes], both reading [in_channels[i]]. *)
Theorem init_head_widths (c : config) (h : head) (i : nat) (conv : head_conv) :
  init c = Ok h ->
  nth_error (head_convs h) i = Some conv ->
  exists ch n,
    nth_error (in_channels c) i = Some ch /\
    nth_error (head_num_anchors h) i = Some n /\
    conv_in conv = ch /\
    reg_out conv = n * 4 /\
    cls_out conv = n * num_classes c.
Proof.
  intros H Hi.
  destruct (init_inv c h H) as (na & convs & gens & _ & Hc & _ & ->).
  cbn [head_convs head_num_anchors] in *.
  unfold build_convs in Hc.
  destruct (mapM_nth _ _ _ Hc i conv Hi) as (j & Hj & Hb).
  assert (j = i).
  { pose proof (nth_error_Some (seq 0 (length (in_channels c))) i) as Hs.
    rewrite Hj in Hs. rewrite length_seq in Hs.
    assert (Hlt : (i < length (in_channels c))%nat)
      by (apply Hs; discriminate).
    rewrite nth_error_nth' with (d := 0%nat) in Hj
      by (rewrite length_seq; exact Hlt).
    rewrite seq_nth in Hj by exact Hlt. injection Hj as <-. reflexivity. }
  subst j. apply build_conv_inv. exact Hb.
Qed.

Lemma init_head_widths_witness :
  exists ch n,
    nth_error (in_channels default_config) 1 = Some ch /\
    nth_error (head_num_anchors default_head) 1 = Some n /\
    conv_in {| conv_in := 1024; reg_out := 24; cls_out := 486;
               conv_depthwise := None |} = ch /\
    reg_out {| conv_in := 1024; reg_out := 24; cls_out := 486;
               conv_depthwise := None |} = n * 4 /\
    cls_out {| conv_in := 1024; reg_out := 24; cls_out := 486;
               conv_depthwise := None |} = n * num_classes default_config.
Proof.
  apply (init_head_widths default_config default_head 1
           {| conv_in := 1024; reg_out := 24; cls_out := 486;
              conv_depthwise := None |}).
  - vm_compute. reflexivity.
  - reflexivity.
Defined.

Lemma nth_error_seq0 (n k j : nat) :
  nth_error (seq 0 n) k = Some j -> j = k /\ (k < n)%nat.
Proof.
  intros H.
  assert (Hlt : (k < n)%nat).
  { pose proof (nth_error_Some (seq 0 n) k) as Hs. rewrite H in Hs.
    rewrite length_seq in Hs. apply Hs. discriminate. }
  rewrite nth_error_nth' with (d := 0%nat) in H
    by (rewrite length_seq; exact Hlt).
  rewrite seq_nth in H by exact Hlt. injection H as <-.
  split; [reflexivity | exact Hlt].
Qed.


Lemma level_ratios_from_inv (ars acc ratios : list Q) :
  level_ratios_from acc ars = Ok ratios ->
  Forall (fun r => ~ (r == 0)%Q) ars.
Proof.
  revert acc. induction ars as [| r t IH]; intros acc H.
  - constructor.
  - simpl in H. destruct (Qeq_bool r 0) eqn:E; [discriminate H |].
    constructor; [apply Qeq_bool_neq, E | eapply IH, H].
Qed.

Lemma level_ratios_from_zero (ars acc : list Q) :
  Exists (fun r => (r == 0)%Q) ars ->
  level_ratios_from acc ars = Raise ZeroDivisionError.
Proof.
  intros H. revert acc. induction H as [r t Hr | r t _ IH]; intros acc; simpl.
  - apply Qeq_bool_iff in Hr. rewrite Hr. reflexivity.
  - destruct (Qeq_bool r 0); [reflexivity | apply IH].
Qed.

(** The generator of a derived level, whenever its inputs are in range. *)
Lemma derived_level_ok (c : config) (min_sizes max_sizes : list Z) (k : nat)
    (base_size max_size : Z) (st : stride) (ars : list Q) :
  nth_error min_sizes k = Some base_size ->
  nth_error max_sizes k = Some max_size ->
  nth_error (anchor_strides c) k = Some st ->
  nth_error (anchor_ratios c) k = Some ars ->
  base_size <> 0 ->
  Forall (fun r => ~ (r == 0)%Q) ars ->
  derived_level c min_sizes max_sizes k
  = Ok {| base_anchors :=
            ScaleRatio base_size ScaleOne 1
              :: ScaleRatio base_size (ScaleSqrt max_size base_size) 1
              :: map (ScaleRatio base_size ScaleOne)
                     (flat_map (fun r => [(1 / r)%Q; r]) ars);
          ctr := stride_ctr st |}.
Proof.
  intros Hmin Hmax Hst Har Hb Hnz.
  pose proof (ratio_list_length ars) as HL.
  unfold derived_level, getitem.
  rewrite Hmin, Hst, Hmax, Har. cbn [bind].
  destruct (Z.eqb_spec base_size 0) as [E | _]; [contradiction |].
  cbn [bind]. rewrite (level_ratios_ok ars Hnz). cbn [bind].
  set (rest := flat_map (fun r => [(1 / r)%Q; r]) ars).
  assert (Hrest : length rest = (2 * length ars)%nat)
    by (unfold ratio_list in HL; fold rest in HL; simpl in HL; lia).
  replace (gen_base_anchors base_size
             [ScaleOne; ScaleSqrt max_size base_size] (ratio_list ars))
    with ((ScaleRatio base_size ScaleOne 1
             :: map (ScaleRatio base_size ScaleOne) rest)
          ++ ScaleRatio base_size (ScaleSqrt max_size base_size) 1
             :: map (ScaleRatio base_size (ScaleSqrt max_size base_size))
                    rest)
    by (unfold gen_base_anchors, ratio_list; fold rest; cbn [flat_map map];
        rewrite app_nil_r; reflexivity).
  rewrite reorder_selects by (rewrite length_map; lia).
  reflexivity.
Qed.

Lemma derived_level_inv (c : config) (min_sizes max_sizes : list Z) (k : nat)
    (g : AnchorGenerator) :
  derived_level c min_sizes max_sizes k = Ok g ->
  exists base_size max_size st ars,
    nth_error min_sizes k = Some base_size /\
    nth_error max_sizes k = Some max_size /\
    nth_error (anchor_strides c) k = Some st /\
    nth_error (anchor_ratios c) k = Some ars /\
    base_size <> 0 /\
    Forall (fun r => ~ (r == 0)%Q) ars /\
    g = {| base_anchors :=
             ScaleRatio base_size ScaleOne 1
               :: ScaleRatio base_size (ScaleSqrt max_size base_size) 1
               :: map (ScaleRatio base_size ScaleOne)
                      (flat_map (fun r => [(1 / r)%Q; r]) ars);
           ctr := stride_ctr st |}.
Proof.
  intros H. pose proof H as H0. unfold derived_level, getitem in H.
  destruct (nth_error min_sizes k) as [b |] eqn:E1; [| discriminate H].
  cbn [bind] in H.
  destruct (nth_error (anchor_strides c) k) as [st |] eqn:E2;
    [| discriminate H].
  cbn [bind] in H.
  destruct (nth_error max_sizes k) as [M |] eqn:E3; [| discriminate H].
  cbn [bind] in H.
  destruct (Z.eqb_spec b 0) as [Eb | Eb]; [discriminate H |].
  cbn [bind] in H.
  destruct (nth_error (anchor_ratios c) k) as [ars |] eqn:E4;
    [| discriminate H].
  cbn [bind] in H.
  destruct (level_ratios ars) as [ratios | e] eqn:E5; [| discriminate H].
  assert (Hnz : Forall (fun r => ~ (r == 0)%Q) ars)
    by (eapply level_ratios_from_inv; exact E5).
  exists b, M, st, ars.
  rewrite (derived_level_ok c min_sizes max_sizes k b M st ars
             E1 E3 E2 E4 Eb Hnz) in H0.
  injection H0 as <-. repeat split; first [reflexivity | assumption].
Qed.

Lemma explicit_level_inv (c : config) (k : nat) (g : AnchorGenerator) :
  explicit_level c k = Ok g ->
  exists st wk hk,
    nth_error (anchor_strides c) k = Some st /\
    nth_error (anchor_widths c) k = Some wk /\
    nth_error (anchor_heights c) k = Some hk /\
    g = {| base_anchors := gen_explicit_anchors wk hk;
           ctr := stride_ctr st |}.
Proof.
  unfold explicit_level, getitem, assert, assert_msg. intros H.
  destruct (leftover_i c) as [i |]; [| discriminate H]. cbn [bind] in H.
  destruct (nth_error (anchor_widths c) i) as [wi |]; [| discriminate H].
  cbn [bind] in H.
  destruct (nth_error (anchor_heights c) i) as [hi |]; [| discriminate H].
  cbn [bind] in H.
  destruct (Nat.eqb (length wi) (length hi)); [| discriminate H].
  cbn [bind] in H.
  destruct (nth_error (anchor_strides c) k) as [st |]; [| discriminate H].
  cbn [bind] in H.
  destruct (nth_error (anchor_widths c) k) as [wk |]; [| discriminate H].
  cbn [bind] in H.
  destruct (nth_error (anchor_heights c) k) as [hk |]; [| discriminate H].
  cbn [bind] in H. injection H as <-.
  exists st, wk, hk. repeat split; reflexivity.
Qed.

(** X3: on the ratio-derivation path of a successfully built head, the
    number of base anchors of every level's generator is the
    [num_anchors] entry that sizes that level's regressor and classifier. *)
Theorem derived_anchor_count_matches_head
    (c : config) (h : head) (k : nat) (g : AnchorGenerator) :
  init c = Ok h ->
  anchor_heights c = [] ->
  nth_error (anchor_generators h) k = Some g ->
  nth_error (head_num_anchors h) k = Some (Z.of_nat (length (base_anchors g))).
Proof.
  intros H Hh Hk.
  destruct (init_inv c h H) as (na & convs & gens & Hna & _ & Hg & ->).
  cbn [anchor_generators head_num_anchors] in *.
  destruct (generators_inv c gens Hg)
    as (level & Hm & [[Hne _] | [_ (mins & maxs & _ & ->)]]);
    [contradiction |].
  destruct (mapM_nth _ _ _ Hm k g Hk) as (j & Hj & Hd).
  apply nth_error_seq0 in Hj. destruct Hj as [-> _].
  destruct (derived_level_inv c mins maxs k g Hd)
    as (b & M & st & ars & _ & _ & _ & Har & _ & _ & ->).
  unfold num_anchors in Hna. rewrite Hh in Hna.
  cbn [length Nat.eqb negb] in Hna. injection Hna as <-.
  rewrite nth_error_map, Har. cbn [option_map base_anchors length].
  rewrite length_map.
  pose proof (ratio_list_length ars) as HL. unfold ratio_list in HL.
  cbn [length] in HL. f_equal. lia.
Qed.

Lemma derived_anchor_count_matches_head_witness :
  nth_error (head_num_anchors default_head) 1
  = Some (Z.of_nat
            (length (base_anchors
               {| base_anchors :=
                    [ScaleRatio 30 ScaleOne 1;
                     ScaleRatio 30 (ScaleSqrt 90 30) 1;
                     ScaleRatio 30 ScaleOne (1 # 2);
                     ScaleRatio 30 ScaleOne 2;
                     ScaleRatio 30 ScaleOne (1 # 3);
                     ScaleRatio 30 ScaleOne 3];
                  ctr := ((15 # 2)%Q, (15 # 2)%Q) |}))).
Proof.
  apply (derived_anchor_count_matches_head default_config default_head 1).
  - vm_compute. reflexivity.
  - reflexivity.
  - reflexivity.
Defined.

(** X4: every anchor generator of a successfully built head, on either
    path, is centred at [((s - 1) / 2, (s - 1) / 2)] for the stride [s] of
    its level (per axis for a tuple stride). *)
Theorem generator_centre_follows_stride
    (c : config) (h : head) (k : nat) (g : AnchorGenerator) :
  init c = Ok h ->
  nth_error (anchor_generators h) k = Some g ->
  exists st,
    nth_error (anchor_strides c) k = Some st /\
    ctr g = match st with
            | StrideInt s =>
                ((inject_Z (s - 1) / 2)%Q, (inject_Z (s - 1) / 2)%Q)
            | StrideTuple sx sy =>
                ((inject_Z (sx - 1) / 2)%Q, (inject_Z (sy - 1) / 2)%Q)
            end.
Proof.
  intros H Hk.
  destruct (init_inv c h H) as (na & convs & gens & _ & _ & Hg & ->).
  cbn [anchor_generators] in *.
  destruct (generators_inv c gens Hg) as (level & Hm & Hlevel).
  destruct (mapM_nth _ _ _ Hm k g Hk) as (j & Hj & Hd).
  apply nth_error_seq0 in Hj. destruct Hj as [-> _].
  destruct Hlevel as [[_ ->] | [_ (mins & maxs & _ & ->)]].
  - destruct (explicit_level_inv c k g Hd) as (st & wk & hk & Hst & _ & _ & ->).
    exists st. split; [exact Hst |]. destruct st; reflexivity.
  - destruct (derived_level_inv c mins maxs k g Hd)
      as (b & M & st & ars & _ & _ & Hst & _ & _ & _ & ->).
    exists st. split; [exact Hst |]. destruct st; reflexivity.
Qed.

Lemma generator_centre_follows_stride_witness :
  exists st,
    nth_error (anchor_strides default_config) 1 = Some st /\
    ctr {| base_anchors :=
             [ScaleRatio 30 ScaleOne 1; ScaleRatio 30 (ScaleSqrt 90 30) 1;
              ScaleRatio 30 ScaleOne (1 # 2); ScaleRatio 30 ScaleOne 2;
              ScaleRatio 30 ScaleOne (1 # 3); ScaleRatio 30 ScaleOne 3];
           ctr := ((15 # 2)%Q, (15 # 2)%Q) |}
    = match st with
      | StrideInt s => ((inject_Z (s - 1) / 2)%Q, (inject_Z (s - 1) / 2)%Q)
      | StrideTuple sx sy =>
          ((inject_Z (sx - 1) / 2)%Q, (inject_Z (sy - 1) / 2)%Q)
      end.
Proof.
  apply (generator_centre_follows_stride default_config default_head 1).
  - vm_compute. reflexivity.
  - reflexivity.
Defined.

(** X5: a zero minimum size or a zero configured ratio at a level of the
    ratio-derivation path stops the constructor with [ZeroDivisionError]. *)
Theorem derived_level_zero_division
    (c : config) (min_sizes max_sizes : list Z) (k : nat)
    (base_size max_size : Z) (st : stride) (ars : list Q) :
  nth_error min_sizes k = Some base_size ->
  nth_error max_sizes k = Some max_size ->
  nth_error (anchor_strides c) k = Some st ->
  nth_error (anchor_ratios c) k = Some ars ->
  base_size = 0 \/ Exists (fun r => (r == 0)%Q) ars ->
  derived_level c min_sizes max_sizes k = Raise ZeroDivisionError.
Proof.
  intros Hmin Hmax Hst Har Hz.
  unfold derived_level, getitem.
  rewrite Hmin, Hst, Hmax. cbn [bind].
  destruct (Z.eqb_spec base_size 0) as [E | E]; [reflexivity |].
  cbn [bind]. rewrite Har. cbn [bind].
  destruct Hz as [Hb | Hr]; [contradiction |].
  unfold level_ratios. rewrite (level_ratios_from_zero ars _ Hr). reflexivity.
Qed.

Lemma derived_level_zero_division_witness :
  derived_level default_config [0; 0] [0; 1] 0 = Raise ZeroDivisionError.
Proof.
  apply (derived_level_zero_division default_config [0; 0] [0; 1] 0
           0 0 (StrideInt 8) [2%Q]).
  - reflexivity.
  - reflexivity.
  - reflexivity.
  - reflexivity.
  - left. reflexivity.
Defined.

(* ================================================================== *)
(** * Configurations the constructor refuses                            *)
(* ================================================================== *)




(** X7: depthwise heads with an activation name other than [relu] and
    [relu6] stop the constructor with [KeyError] as soon as there is a
    level to build. *)
Theorem init_unknown_activation (c : config) :
  depthwise_heads c = true ->
  depthwise_heads_activations c <> "relu"%string ->
  depthwise_heads_activations c <> "relu6"%string ->
  in_channels c <> [] ->
  returns (num_anchors c) ->
  init c = Raise KeyError.
Proof.
  intros Hd H1 H2 Hne [na Hna]. unfold init. rewrite Hna. cbn [bind].
  unfold build_convs.
  destruct (in_channels c) as [| ch t] eqn:E; [contradiction |].
  cbn [length seq mapM]. unfold build_conv. rewrite Hd.
  unfold activation_class.
  apply String.eqb_neq in H1. apply String.eqb_neq in H2.
  rewrite H1, H2. reflexivity.
Qed.

Lemma init_unknown_activation_witness :
  init unknown_activation_config = Raise KeyError.
Proof.
  apply (init_unknown_activation unknown_activation_config).
  - reflexivity.
  - discriminate.
  - discriminate.
  - discriminate.
  - eexists. reflexivity.
Defined.



(** X9: on the explicit path with tables of equal outer length, an empty
    [in_channels] together with at least one stride stops the constructor
    with [UnboundLocalError]: the per-level assertion reads the loop
    variable of the head-building loop, which never ran. *)
Theorem init_explicit_without_channels (c : config) :
  anchor_heights c <> [] ->
  length (anchor_heights c) = length (anchor_widths c) ->
  in_channels c = [] ->
  anchor_strides c <> [] ->
  init c = Raise UnboundLocalError.
Proof.
  intros Hne Hlen Hch Hst.
  assert (H0 : Nat.eqb (length (anchor_heights c)) 0 = false).
  { apply Nat.eqb_neq. destruct (anchor_heights c); [contradiction |].
    discriminate. }
  unfold init, num_anchors, assert, assert_msg.
  rewrite H0, Hlen, Nat.eqb_refl. cbn [negb bind].
  unfold build_convs. rewrite Hch. cbn [length seq mapM bind].
  unfold explicit_generators, assert, assert_msg.
  rewrite Hlen, Nat.eqb_refl. cbn [bind].
  destruct (anchor_strides c) as [| s0 ss]; [contradiction |].
  cbn [length seq mapM]. unfold explicit_level, leftover_i. rewrite Hch.
  reflexivity.
Qed.

Lemma init_explicit_without_channels_witness :
  init no_channels_config = Raise UnboundLocalError.
Proof.
  apply (init_explicit_without_channels no_channels_config).
  - discriminate.
  - reflexivity.
  - reflexivity.
  - discriminate.
Defined.

(* ================================================================== *)
(** * How many sizes are derived, and when the ratio path succeeds      *)
(* ================================================================== *)











(* ================================================================== *)
(** * More on hard negative mining                                       *)
(* ================================================================== *)

(** X13: when the image has no more label-0 anchors than
    [neg_pos_ratio * num_pos], every one of them is mined. *)
Theorem all_negatives_mined_when_capped
    (ce : list Q -> Z -> Q) (cls_score : list (list Q)) (labels : list Z)
    (label_weights : list Q) (cfg : train_cfg) :
  length cls_score = length labels ->
  length label_weights = length labels ->
  0 <= neg_pos_ratio cfg ->
  Z.of_nat (length (filter is_negative labels))
    <= neg_pos_ratio cfg * Z.of_nat (length (filter is_positive labels)) ->
  exists m : mined,
    mine_negatives ce cls_score labels label_weights cfg = Ok m /\
    num_neg_samples m = Z.of_nat (length (filter is_negative labels)) /\
    Permutation (topk_loss_cls_neg m)
      (spec_losses_where is_negative labels (loss_cls_all m)).
Proof.
  intros Hscore Hweights Hratio Hcap.
  eexists. split; [apply mine_negatives_ok; assumption |].
  cbn [num_neg_samples topk_loss_cls_neg loss_cls_all].
  assert (Hk : spec_num_neg cfg labels
               = Z.of_nat (length (filter is_negative labels)))
    by (unfold spec_num_neg, spec_num_pos; lia).
  split; [exact Hk |].
  rewrite Hk, Nat2Z.id.
  rewrite firstn_all2.
  - apply sort_desc_perm.
  - rewrite sort_desc_length, spec_losses_where_length; [lia |].
    apply spec_weighted_ce_length; assumption.
Qed.

Lemma all_negatives_mined_when_capped_witness :
  exists m : mined,
    mine_negatives toy_cross_entropy [[1%Q; 0%Q]; [5%Q; 0%Q]; [2%Q; 0%Q]]
      [1; 0; 0] [1%Q; 1%Q; 1%Q] cfg3 = Ok m /\
    num_neg_samples m = Z.of_nat (length (filter is_negative [1; 0; 0])) /\
    Permutation (topk_loss_cls_neg m)
      (spec_losses_where is_negative [1; 0; 0] (loss_cls_all m)).
Proof.
  apply (all_negatives_mined_when_capped toy_cross_entropy
           [[1%Q; 0%Q]; [5%Q; 0%Q]; [2%Q; 0%Q]] [1; 0; 0]
           [1%Q; 1%Q; 1%Q] cfg3).
  - reflexivity.
  - reflexivity.
  - simpl. lia.
  - simpl. lia.
Defined.

Lemma qsum_app (a b : list Q) : (qsum (a ++ b) == qsum a + qsum b)%Q.
Proof.
  induction a as [| x t IH]; simpl.
  - ring.
  - rewrite IH. ring.
Qed.

Lemma qsum_nonneg (l : list Q) :
  Forall (fun x => (0 <= x)%Q) l -> (0 <= qsum l)%Q.
Proof.
  induction 1 as [| x t Hx _ IH]; simpl.
  - apply Qle_refl.
  - lra.
Qed.

Lemma qsum_cons (x : Q) (l : list Q) : qsum (x :: l) = (x + qsum l)%Q.
Proof. reflexivity. Qed.

(** One more element of a list bounded by [x] adds at most [x]. *)
Lemma prefix_step_bounded (x : Q) (l : list Q) :
  Forall (fun y => (y <= x)%Q) l ->
  forall k, (S k <= length l)%nat ->
            (qsum (firstn (S k) l) <= x + qsum (firstn k l))%Q.
Proof.
  induction 1 as [| y t Hy _ IH]; intros k Hk.
  - simpl in Hk. lia.
  - destruct k as [| k].
    + simpl. lra.
    + simpl in Hk. specialize (IH k ltac:(lia)).
      change (firstn (S (S k)) (y :: t)) with (y :: firstn (S k) t).
      change (firstn (S k) (y :: t)) with (y :: firstn k t).
      rewrite !qsum_cons. lra.
Qed.

(** No choice of as many elements beats the prefix of a descending list. *)
Lemma sorted_prefix_is_max (l : list Q) :
  StronglySorted Qge' l ->
  forall s r, Permutation l (s ++ r) ->
              (qsum s <= qsum (firstn (length s) l))%Q.
Proof.
  induction 1 as [| x l' Hsorted IH Hx]; intros s r Hperm.
  - apply Permutation_nil in Hperm. apply app_eq_nil in Hperm.
    destruct Hperm as [-> _]. simpl. apply Qle_refl.
  - assert (Hin : In x (s ++ r))
      by (eapply Permutation_in; [exact Hperm | left; reflexivity]).
    apply in_app_or in Hin. destruct Hin as [Hin | Hin].
    + apply in_split in Hin. destruct Hin as (s1 & s2 & ->).
      rewrite <- app_assoc in Hperm. cbn [app] in Hperm.
      apply Permutation_cons_app_inv in Hperm.
      rewrite app_assoc in Hperm.
      specialize (IH (s1 ++ s2) r Hperm).
      rewrite length_app. cbn [length].
      replace (length s1 + S (length s2))%nat
        with (S (length (s1 ++ s2))) by (rewrite length_app; lia).
      change (firstn (S (length (s1 ++ s2))) (x :: l'))
        with (x :: firstn (length (s1 ++ s2)) l').
      rewrite qsum_app in IH. rewrite qsum_app, !qsum_cons. lra.
    + apply in_split in Hin. destruct Hin as (r1 & r2 & ->).
      rewrite app_assoc in Hperm.
      apply Permutation_cons_app_inv in Hperm.
      rewrite <- app_assoc in Hperm.
      pose proof (IH s (r1 ++ r2) Hperm) as IHs.
      destruct s as [| a s']; [simpl; apply Qle_refl |].
      assert (Hlen : (length (a :: s') <= length l')%nat).
      { apply Permutation_length in Hperm. rewrite Hperm, length_app. lia. }
      cbn [length] in *.
      pose proof (prefix_step_bounded x l' Hx (length s') Hlen) as Hstep.
      change (firstn (S (length s')) (x :: l'))
        with (x :: firstn (length s') l').
      rewrite !qsum_cons in *. lra.
Qed.

(** X14: on well-shaped inputs the mined negatives have the largest total
    loss among all choices of as many label-0 anchors. *)
Theorem mined_negatives_maximise_loss
    (ce : list Q -> Z -> Q) (cls_score : list (list Q)) (labels : list Z)
    (label_weights : list Q) (cfg : train_cfg) :
  length cls_score = length labels ->
  length label_weights = length labels ->
  0 <= neg_pos_ratio cfg ->
  exists m : mined,
    mine_negatives ce cls_score labels label_weights cfg = Ok m /\
    forall chosen others : list Q,
      Permutation (spec_losses_where is_negative labels (loss_cls_all m))
                  (chosen ++ others) ->
      Z.of_nat (length chosen) = num_neg_samples m ->
      (qsum chosen <= qsum (topk_loss_cls_neg m))%Q.
Proof.
  intros Hscore Hweights Hratio.
  eexists. split; [apply mine_negatives_ok; assumption |].
  cbn [num_neg_samples topk_loss_cls_neg loss_cls_all].
  intros chosen others Hperm Hlen.
  rewrite <- Hlen, Nat2Z.id.
  apply (sorted_prefix_is_max _ (sort_desc_sorted _) chosen others).
  eapply perm_trans; [apply sort_desc_perm | exact Hperm].
Qed.

Lemma mined_negatives_maximise_loss_witness :
  exists m : mined,
    mine_negatives toy_cross_entropy toy_scores toy_labels toy_weights cfg3
    = Ok m /\
    forall chosen others : list Q,
      Permutation (spec_losses_where is_negative toy_labels (loss_cls_all m))
                  (chosen ++ others) ->
      Z.of_nat (length chosen) = num_neg_samples m ->
      (qsum chosen <= qsum (topk_loss_cls_neg m))%Q.
Proof.
  apply (mined_negatives_maximise_loss toy_cross_entropy toy_scores
           toy_labels toy_weights cfg3).
  - reflexivity.
  - reflexivity.
  - simpl. lia.
Defined.

Lemma spec_weighted_ce_nonneg (ce : list Q -> Z -> Q)
    (cls_score : list (list Q)) (labels : list Z) (label_weights : list Q) :
  (forall row l, (0 <= ce row l)%Q) ->
  Forall (fun w => (0 <= w)%Q) label_weights ->
  Forall (fun x => (0 <= x)%Q)
    (spec_weighted_ce ce cls_score labels label_weights).
Proof.
  intros Hce Hw. unfold spec_weighted_ce. apply Forall_forall. intros x Hx.
  apply in_map_iff in Hx. destruct Hx as ([a w] & <- & Hin).
  pose proof (in_combine_l _ _ _ _ Hin) as Ha.
  pose proof (in_combine_r _ _ _ _ Hin) as Hwin.
  apply in_map_iff in Ha. destruct Ha as ([row l] & <- & _).
  rewrite Forall_forall in Hw. cbn [fst snd].
  apply Qmult_le_0_compat; [apply Hce | apply Hw, Hwin].
Qed.

Lemma spec_losses_where_incl (p : Z -> bool) (labels : list Z)
    (losses : list Q) (x : Q) :
  In x (spec_losses_where p labels losses) -> In x losses.
Proof.
  unfold spec_losses_where. intros H.
  apply in_map_iff in H. destruct H as ([l y] & <- & Hin).
  apply filter_In in Hin. destruct Hin as [Hin _].
  eapply in_combine_r. exact Hin.
Qed.

(** X15: with a non-negative per-anchor cross-entropy and non-negative label
    weights, the classification loss returned by the per-image loss is
    non-negative. *)
Theorem loss_cls_nonnegative
    (ce : list Q -> Z -> Q)
    (sl1 : list (list Q) -> list (list Q) -> list (list Q) -> Q -> Z
           -> result Q)
    (cls_score bbox_pred : list (list Q)) (labels : list Z)
    (label_weights : list Q) (bbox_targets bbox_weights : list (list Q))
    (n : Z) (cfg : train_cfg) (lc : list Q) (lb : Q) :
  (forall row l, (0 <= ce row l)%Q) ->
  Forall (fun w => (0 <= w)%Q) label_weights ->
  length cls_score = length labels ->
  length label_weights = length labels ->
  0 <= neg_pos_ratio cfg ->
  loss_single ce sl1 cls_score bbox_pred labels label_weights
    bbox_targets bbox_weights n cfg = Ok (lc, lb) ->
  Forall (fun x => (0 <= x)%Q) lc.
Proof.
  intros Hce Hw Hscore Hweights Hratio H.
  rewrite loss_single_cases in H by assumption.
  destruct (Z.ltb_spec 0 (spec_num_pos labels)); [| discriminate H].
  destruct (Z.ltb_spec 0 (spec_num_neg cfg labels)); [| discriminate H].
  destruct (Z.ltb_spec 0 n) as [Hn | Hn]; [| discriminate H].
  cbn [andb] in H.
  destruct (sl1 _ _ _ _ _) as [lb' | e]; [| discriminate H].
  cbn [bind] in H. injection H as <- <-.
  constructor; [| constructor].
  unfold spec_loss_cls.
  pose proof (spec_weighted_ce_nonneg ce cls_score labels label_weights
                Hce Hw) as Hall.
  set (all := spec_weighted_ce ce cls_score labels label_weights) in *.
  rewrite Forall_forall in Hall.
  assert (Hpos : (0 <= qsum (spec_losses_where is_positive labels all))%Q).
  { apply qsum_nonneg, Forall_forall. intros x Hx.
    apply Hall. eapply spec_losses_where_incl. exact Hx. }
  assert (Hneg : (0 <= qsum (firstn (Z.to_nat (spec_num_neg cfg labels))
                               (sort_desc
                                  (spec_losses_where is_negative labels
                                     all))))%Q).
  { apply qsum_nonneg, Forall_forall. intros x Hx.
    assert (Hx' : In x (sort_desc (spec_losses_where is_negative labels all))).
    { rewrite <- (firstn_skipn (Z.to_nat (spec_num_neg cfg labels))).
      apply in_or_app. left. exact Hx. }
    apply (Permutation_in _ (sort_desc_perm _)) in Hx'. rename Hx' into Hx2.
    clear Hx. rename Hx2 into Hx.
    apply Hall. eapply spec_losses_where_incl. exact Hx. }
  apply Qle_shift_div_l.
  - change 0%Q with (inject_Z 0). rewrite <- Zlt_Qlt. exact Hn.
  - lra.
Qed.

Lemma loss_cls_nonnegative_witness :
  Forall (fun x => (0 <= x)%Q) [(4 # 10)%Q].
Proof.
  apply (loss_cls_nonnegative (fun _ _ => 1%Q) toy_smooth_l1
           toy_scores [] toy_labels toy_weights [] [] 10 cfg3
           [(4 # 10)%Q] (0 / inject_Z 10)%Q).
  - intros row l. discriminate.
  - repeat constructor; discriminate.
  - reflexivity.
  - reflexivity.
  - simpl. lia.
  - vm_compute. reflexivity.
Defined.

(* ================================================================== *)
(** * More on the batch loss                                             *)
(* ================================================================== *)

(** X16: when the assigner returns no assignment, the batch loss returns
    [None] without raising, provided only that there is at least one level
    and as many score maps as anchor generators; the predictions, finite or
    not, are not examined. *)
Theorem loss_without_assignment_is_none
    (ce : list Q -> Z -> Q)
    (sl1 : list (list Q) -> list (list Q) -> list (list Q) -> Q -> Z
           -> result Q)
    (self : loss_self)
    (cls_scores bbox_preds : list (list (list (list fval))))
    (num_images : nat) (cfg : train_cfg) :
  length cls_scores = num_anchor_generators self ->
  cls_scores <> [] ->
  loss ce sl1 self cls_scores bbox_preds num_images None cfg = Ok None.
Proof.
  intros Hlen Hne. unfold loss, loss_with, assert, assert_msg.
  rewrite Hlen, Nat.eqb_refl. cbn [bind].
  destruct (getitem_head cls_scores Hne) as [x Hx]. rewrite Hx. reflexivity.
Qed.

Lemma loss_without_assignment_is_none_witness :
  loss toy_cross_entropy toy_smooth_l1 plain_head nan_scores
    background_boxes 1 None cfg3 = Ok None.
Proof.
  apply (loss_without_assignment_is_none toy_cross_entropy toy_smooth_l1
           plain_head nan_scores background_boxes 1 cfg3).
  - reflexivity.
  - discriminate.
Defined.

Lemma cat_levels_length {A} (num_images : nat)
    (levels : list (list (list A))) (rows : list (list A)) :
  cat_levels num_images levels = Ok rows -> length rows = num_images.
Proof.
  unfold cat_levels. intros H.
  destruct levels as [| l t]; [discriminate H |].
  destruct (forallb _ _); [| discriminate H].
  injection H as <-. rewrite length_map, length_seq. reflexivity.
Qed.

Lemma aggregate_lengths (num_images : nat)
    (cls_scores bbox_preds : list (list (list (list fval)))) (t : targets)
    (b : batch) :
  aggregate num_images cls_scores bbox_preds t = Ok b ->
  length (all_cls_scores b) = num_images /\
  length (all_labels b) = num_images /\
  length (all_label_weights b) = num_images /\
  length (all_bbox_preds b) = num_images /\
  length (all_bbox_targets b) = num_images /\
  length (all_bbox_weights b) = num_images.
Proof.
  unfold aggregate. intros H.
  destruct (cat_levels num_images cls_scores) eqn:E1; [| discriminate H].
  cbn [bind] in H.
  destruct (cat_levels num_images (labels_list t)) eqn:E2;
    [| discriminate H].
  cbn [bind] in H.
  destruct (cat_levels num_images (label_weights_list t)) eqn:E3;
    [| discriminate H].
  cbn [bind] in H.
  destruct (cat_levels num_images bbox_preds) eqn:E4; [| discriminate H].
  cbn [bind] in H.
  destruct (cat_levels num_images (bbox_targets_list t)) eqn:E5;
    [| discriminate H].
  cbn [bind] in H.
  destruct (cat_levels num_images (bbox_weights_list t)) eqn:E6;
    [| discriminate H].
  cbn [bind] in H. injection H as <-.
  cbn [all_cls_scores all_labels all_label_weights all_bbox_preds
       all_bbox_targets all_bbox_weights].
  repeat split; eapply cat_levels_length; eassumption.
Qed.

Lemma multi_apply_length {R1 R2 : Type}
    (func : list (list Q) -> list (list Q) -> list Z -> list Q ->
            list (list Q) -> list (list Q) -> result (R1 * R2))
    (n : nat) :
  forall (a1 a2 : list (list (list Q))) (a3 : list (list Z))
         (a4 : list (list Q)) (a5 a6 : list (list (list Q)))
         (l1 : list R1) (l2 : list R2),
    length a1 = n -> length a2 = n -> length a3 = n ->
    length a4 = n -> length a5 = n -> length a6 = n ->
    multi_apply func a1 a2 a3 a4 a5 a6 = Ok (l1, l2) ->
    length l1 = n /\ length l2 = n.
Proof.
  induction n as [| n IH]; intros a1 a2 a3 a4 a5 a6 l1 l2 H1 H2 H3 H4 H5 H6 H.
  - destruct a1; [| discriminate H1]. simpl in H. injection H as <- <-.
    split; reflexivity.
  - destruct a1 as [| x1 t1]; [discriminate H1 |].
    destruct a2 as [| x2 t2]; [discriminate H2 |].
    destruct a3 as [| x3 t3]; [discriminate H3 |].
    destruct a4 as [| x4 t4]; [discriminate H4 |].
    destruct a5 as [| x5 t5]; [discriminate H5 |].
    destruct a6 as [| x6 t6]; [discriminate H6 |].
    simpl in H.
    destruct (func x1 x2 x3 x4 x5 x6) as [r | e]; [| discriminate H].
    cbn [bind] in H.
    destruct (multi_apply func t1 t2 t3 t4 t5 t6) as [[r1 r2] | e] eqn:E;
      [| discriminate H].
    cbn [bind fst snd] in H. injection H as <- <-.
    simpl in H1, H2, H3, H4, H5, H6.
    destruct (IH t1 t2 t3 t4 t5 t6 r1 r2) as [Ha Hb]; try lia; try exact E.
    cbn [length]. split; lia.
Qed.

Lemma loss_with_inv
    (per_image : list (list Q) -> list (list Q) -> list Z -> list Q ->
                 list (list Q) -> list (list Q) -> Z -> train_cfg ->
                 result (list Q * Q))
    (self : loss_self)
    (cls_scores bbox_preds : list (list (list (list fval))))
    (num_images : nat) (t : targets) (cfg : train_cfg) (d : loss_dict) :
  loss_with per_image self cls_scores bbox_preds num_images (Some t) cfg
  = Ok (Some d) ->
  exists b lc lb,
    aggregate num_images cls_scores bbox_preds t = Ok b /\
    all_finite (all_cls_scores b) = true /\
    all_finite (all_bbox_preds b) = true /\
    multi_apply
      (fun s p l w bt bw => per_image s p l w bt bw (num_total_pos t) cfg)
      (rationals (all_cls_scores b)) (rationals (all_bbox_preds b))
      (all_labels b) (all_label_weights b)
      (all_bbox_targets b) (all_bbox_weights b) = Ok (lc, lb) /\
    loss_bbox d = TensorList (map (fun x => Scalar (Q2R x)) lb) /\
    loss_cls d
    = if loss_balancing self
      then Tensor (fst (_balance_losses (loss_weights self)
                          (map (fun l => Vec (map Q2R l)) lc)
                          (map (fun x => Scalar (Q2R x)) lb)))
      else TensorList (map (fun l => Vec (map Q2R l)) lc).
Proof.
  intros H. pose proof H as H0.
  unfold loss_with, assert, assert_msg in H.
  destruct (Nat.eqb_spec (length cls_scores) (num_anchor_generators self))
    as [Hlen | _]; [| discriminate H].
  cbn [bind] in H.
  destruct (getitem cls_scores 0); [| discriminate H]. cbn [bind] in H.
  destruct (aggregate num_images cls_scores bbox_preds t) as [b | e] eqn:Ea;
    [| discriminate H].
  clear H.
  rewrite (loss_with_after_aggregate per_image _ _ _ _ _ _ _ Hlen Ea) in H0.
  unfold assert_msg in H0.
  destruct (all_finite (all_cls_scores b)) eqn:Ec; [| discriminate H0].
  destruct (all_finite (all_bbox_preds b)) eqn:Eb; [| discriminate H0].
  cbn [bind] in H0.
  destruct (multi_apply _ _ _ _ _ _ _) as [[lc lb] | e] eqn:Em;
    [| discriminate H0].
  cbn [bind fst snd] in H0.
  exists b, lc, lb.
  split; [reflexivity |]. split; [exact Ec |]. split; [exact Eb |].
  split; [exact Em |].
  destruct (loss_balancing self); injection H0 as <-; split; reflexivity.
Qed.

(** X17: without balancing, a batch loss that returns carries exactly one
    classification loss and one regression loss per image. *)
Theorem loss_one_entry_per_image
    (per_image : list (list Q) -> list (list Q) -> list Z -> list Q ->
                 list (list Q) -> list (list Q) -> Z -> train_cfg ->
                 result (list Q * Q))
    (self : loss_self)
    (cls_scores bbox_preds : list (list (list (list fval))))
    (num_images : nat) (t : targets) (cfg : train_cfg) (d : loss_dict) :
  loss_with per_image self cls_scores bbox_preds num_images (Some t) cfg
  = Ok (Some d) ->
  loss_balancing self = false ->
  exists lc lb : list tensor,
    loss_cls d = TensorList lc /\ loss_bbox d = TensorList lb /\
    length lc = num_images /\ length lb = num_images.
Proof.
  intros H Hbal.
  destruct (loss_with_inv _ _ _ _ _ _ _ _ H)
    as (b & lc & lb & Ha & _ & _ & Hm & Hbbox & Hcls).
  rewrite Hbal in Hcls.
  destruct (aggregate_lengths _ _ _ _ _ Ha) as (L1 & L2 & L3 & L4 & L5 & L6).
  assert (L1' : length (rationals (all_cls_scores b)) = num_images)
    by (unfold rationals; rewrite length_map; exact L1).
  assert (L4' : length (rationals (all_bbox_preds b)) = num_images)
    by (unfold rationals; rewrite length_map; exact L4).
  destruct (multi_apply_length _ num_images _ _ _ _ _ _ lc lb
              L1' L4' L2 L3 L5 L6 Hm) as [Hlc Hlb].
  eexists. eexists. split; [exact Hcls |]. split; [exact Hbbox |].
  rewrite !length_map. split; assumption.
Qed.

Lemma loss_one_entry_per_image_witness :
  exists lc lb : list tensor,
    loss_cls {| loss_cls :=
                  TensorList [Vec [Q2R (4 # 2)]; Vec [Q2R (6 # 2)]];
                loss_bbox :=
                  TensorList [Scalar (Q2R (0 # 2)); Scalar (Q2R (0 # 2))] |}
    = TensorList lc /\
    loss_bbox {| loss_cls :=
                   TensorList [Vec [Q2R (4 # 2)]; Vec [Q2R (6 # 2)]];
                 loss_bbox :=
                   TensorList [Scalar (Q2R (0 # 2)); Scalar (Q2R (0 # 2))] |}
    = TensorList lb /\
    length lc = 2%nat /\ length lb = 2%nat.
Proof.
  apply (loss_one_entry_per_image
           (loss_single toy_cross_entropy toy_smooth_l1) plain_head
           pair_scores pair_boxes 2 pair_targets cfg3).
  - rewrite (loss_with_after_aggregate _ plain_head pair_scores pair_boxes
               2 pair_targets cfg3 pair_batch eq_refl eq_refl).
    change (all_finite (all_cls_scores pair_batch)) with true.
    change (all_finite (all_bbox_preds pair_batch)) with true.
    cbn [assert_msg bind].
    replace (multi_apply _ _ _ _ _ _ _)
      with (@Ok (list (list Q) * list Q)
              ([[(4 # 2)%Q]; [(6 # 2)%Q]], [(0 # 2)%Q; (0 # 2)%Q]))
      by (vm_compute; reflexivity).
    reflexivity.
  - reflexivity.
Defined.

(** X18: the [loss_balancing] flag changes neither whether the batch loss
    raises nor its [loss_bbox] entry: with balancing the dictionary still
    carries the per-image regression losses. *)
Theorem balancing_leaves_failures_and_bbox
    (per_image : list (list Q) -> list (list Q) -> list Z -> list Q ->
                 list (list Q) -> list (list Q) -> Z -> train_cfg ->
                 result (list Q * Q))
    (self : loss_self)
    (cls_scores bbox_preds : list (list (list (list fval))))
    (num_images : nat) (assignment : option targets) (cfg : train_cfg) :
  (forall e,
     loss_with per_image (with_balancing true self) cls_scores bbox_preds
       num_images assignment cfg = Raise e
     <-> loss_with per_image (with_balancing false self) cls_scores bbox_preds
           num_images assignment cfg = Raise e) /\
  (forall d_on d_off,
     loss_with per_image (with_balancing true self) cls_scores bbox_preds
       num_images assignment cfg = Ok (Some d_on) ->
     loss_with per_image (with_balancing false self) cls_scores bbox_preds
       num_images assignment cfg = Ok (Some d_off) ->
     loss_bbox d_on = loss_bbox d_off).
Proof.
  unfold loss_with, with_balancing.
  cbn [num_anchor_generators loss_balancing loss_weights].
  destruct (assert _) as [u | e0]; cbn [bind];
    [| split; [intros e; reflexivity | intros ? ? H; discriminate H]].
  destruct (getitem cls_scores 0) as [x | e0]; cbn [bind];
    [| split; [intros e; reflexivity | intros ? ? H; discriminate H]].
  destruct assignment as [t |];
    [| split; [intros e; reflexivity | intros ? ? H; discriminate H]].
  destruct (aggregate _ _ _ _) as [b | e0]; cbn [bind];
    [| split; [intros e; reflexivity | intros ? ? H; discriminate H]].
  destruct (assert_msg _ msg_cls) as [u1 | e0]; cbn [bind];
    [| split; [intros e; reflexivity | intros ? ? H; discriminate H]].
  destruct (assert_msg _ msg_bbox) as [u2 | e0]; cbn [bind];
    [| split; [intros e; reflexivity | intros ? ? H; discriminate H]].
  destruct (multi_apply _ _ _ _ _ _ _) as [r | e0]; cbn [bind];
    [| split; [intros e; reflexivity | intros ? ? H; discriminate H]].
  split.
  - intros e. split; intros H; discriminate H.
  - intros d_on d_off Hon Hoff.
    injection Hon as <-. injection Hoff as <-. reflexivity.
Qed.

(* ================================================================== *)
(** * More on the balancer                                               *)
(* ================================================================== *)

(** X19: at the weights the constructor installs (both zero) the balancer
    returns the plain sums over the images of the per-image mean losses. *)
Theorem balance_at_initial_weights (losses_cls losses_reg : list tensor) :
  _balance_losses (0%R, 0%R) losses_cls losses_reg
  = (rsum (map mean losses_cls), rsum (map mean losses_reg)).
Proof.
  rewrite balance_losses_sums. cbn [fst snd].
  rewrite Ropp_0, exp_0. f_equal; lra.
Qed.

(** X20: for fixed weights each balanced term grows with the summed
    per-image loss it is computed from. *)
Theorem balance_is_monotone (w : R * R) (cls cls' reg reg' : list tensor) :
  (rsum (map mean cls) <= rsum (map mean cls'))%R ->
  (rsum (map mean reg) <= rsum (map mean reg'))%R ->
  (fst (_balance_losses w cls reg) <= fst (_balance_losses w cls' reg'))%R /\
  (snd (_balance_losses w cls reg) <= snd (_balance_losses w cls' reg'))%R.
Proof.
  intros Hc Hr. rewrite !balance_losses_sums. cbn [fst snd].
  pose proof (exp_pos (- fst w)) as E1. pose proof (exp_pos (- snd w)) as E2.
  split; nra.
Qed.

Lemma balance_is_monotone_witness :
  (fst (_balance_losses (0%R, 0%R) [Vec [1%R]] [Scalar 2%R])
   <= fst (_balance_losses (0%R, 0%R) [Vec [3%R]] [Scalar 4%R]))%R /\
  (snd (_balance_losses (0%R, 0%R) [Vec [1%R]] [Scalar 2%R])
   <= snd (_balance_losses (0%R, 0%R) [Vec [3%R]] [Scalar 4%R]))%R.
Proof.
  apply (balance_is_monotone (0%R, 0%R) [Vec [1%R]] [Vec [3%R]]
           [Scalar 2%R] [Scalar 4%R]).
  - unfold rsum. simpl. lra.
  - unfold rsum. simpl. lra.
Defined.

(* ================================================================== *)
(** * The forward pass ([forward], lines 145-152)                        *)
(* ================================================================== *)

Section ForwardFacts.

Variables (feature prediction : Type).
Variable cls_conv : head_conv -> feature -> result prediction.
Variable reg_conv : head_conv -> feature -> result prediction.

Lemma forward_inv (feats : list feature) (convs : list head_conv) :
  forall cs bs,
    forward feature prediction cls_conv reg_conv feats convs = Ok (cs, bs) ->
    length cs = Nat.min (length feats) (length convs) /\
    length bs = Nat.min (length feats) (length convs) /\
    forall k feat conv,
      nth_error feats k = Some feat ->
      nth_error convs k = Some conv ->
      exists c b,
        nth_error cs k = Some c /\ nth_error bs k = Some b /\
        cls_conv conv feat = Ok c /\ reg_conv conv feat = Ok b.
Proof.
  revert convs. induction feats as [| f fs IH]; intros convs cs bs H.
  - simpl in H. injection H as <- <-.
    split; [reflexivity |]. split; [reflexivity |].
    intros k feat conv Hk. destruct k; discriminate Hk.
  - destruct convs as [| cv cvs].
    + simpl in H. injection H as <- <-.
      split; [reflexivity |]. split; [reflexivity |].
      intros k feat conv _ Hk. destruct k; discriminate Hk.
    + simpl in H.
      destruct (cls_conv cv f) as [c |] eqn:Ec; [| discriminate H].
      cbn [bind] in H.
      destruct (reg_conv cv f) as [b |] eqn:Eb; [| discriminate H].
      cbn [bind] in H.
      destruct (forward feature prediction cls_conv reg_conv fs cvs)
        as [[cs' bs'] |] eqn:Er; [| discriminate H].
      cbn [bind fst snd] in H. injection H as <- <-.
      destruct (IH cvs cs' bs' Er) as (L1 & L2 & Hn).
      cbn [length]. rewrite L1, L2.
      split; [reflexivity |]. split; [reflexivity |].
      intros k feat conv Hf Hc. destruct k as [| k].
      * injection Hf as <-. injection Hc as <-.
        exists c, b. repeat split; assumption.
      * simpl in Hf, Hc. exact (Hn k feat conv Hf Hc).
Qed.

Lemma forward_truncates (feats : list feature) (convs : list head_conv) :
  forward feature prediction cls_conv reg_conv feats convs
  = forward feature prediction cls_conv reg_conv
      (firstn (length convs) feats) (firstn (length feats) convs).
Proof.
  revert convs. induction feats as [| f fs IH]; intros convs.
  - destruct convs; reflexivity.
  - destruct convs as [| cv cvs]; [reflexivity |].
    cbn [length firstn forward]. rewrite <- IH. reflexivity.
Qed.

End ForwardFacts.

(** X21: a forward pass that returns gives as many score maps as offset
    maps, one per level up to the shorter of the feature list and the head's
    level list, and the [k]-th maps are the level-[k] classifier and
    regressor applied to the [k]-th feature map. *)
Theorem forward_keeps_level_order
    (feature prediction : Type)
    (cls_conv reg_conv : head_conv -> feature -> result prediction)
    (feats : list feature) (convs : list head_conv)
    (cs bs : list prediction) :
  forward feature prediction cls_conv reg_conv feats convs = Ok (cs, bs) ->
  length cs = Nat.min (length feats) (length convs) /\
  length bs = Nat.min (length feats) (length convs) /\
  forall k feat conv,
    nth_error feats k = Some feat ->
    nth_error convs k = Some conv ->
    exists c b,
      nth_error cs k = Some c /\ nth_error bs k = Some b /\
      cls_conv conv feat = Ok c /\ reg_conv conv feat = Ok b.
Proof. apply forward_inv. Qed.

Lemma forward_keeps_level_order_witness :
  length [324; 486]
  = Nat.min (length [38%nat; 19%nat]) (length (head_convs default_head)) /\
  length [16; 24]
  = Nat.min (length [38%nat; 19%nat]) (length (head_convs default_head)) /\
  forall k feat conv,
    nth_error [38%nat; 19%nat] k = Some feat ->
    nth_error (head_convs default_head) k = Some conv ->
    exists c b,
      nth_error [324; 486] k = Some c /\ nth_error [16; 24] k = Some b /\
      (fun (cv : head_conv) (_ : nat) => Ok (cls_out cv)) conv feat = Ok c /\
      (fun (cv : head_conv) (_ : nat) => Ok (reg_out cv)) conv feat = Ok b.
Proof.
  apply (forward_keeps_level_order nat Z
           (fun cv _ => Ok (cls_out cv)) (fun cv _ => Ok (reg_out cv))
           [38%nat; 19%nat] (head_convs default_head)
           [324; 486] [16; 24]).
  reflexivity.
Defined.

(** X22: feature maps beyond the head's levels, and levels beyond the
    feature maps, are ignored by the forward pass without any error. *)
Theorem forward_ignores_surplus
    (feature prediction : Type)
    (cls_conv reg_conv : head_conv -> feature -> result prediction)
    (feats : list feature) (convs : list head_conv) :
  forward feature prediction cls_conv reg_conv feats convs
  = forward feature prediction cls_conv reg_conv
      (firstn (length convs) feats) (firstn (length feats) convs).
Proof. apply forward_truncates. Qed.

(* ================================================================== *)
(** * Concrete runs of the refusals proved with the claims               *)
(* ================================================================== *)


Lemma explicit_outer_mismatch_raises_witness :
  init outer_mismatch_config = Raise (AssertionError EmptyString).
Proof.
  apply (explicit_outer_mismatch_raises outer_mismatch_config).
  - discriminate.
  - simpl. lia.
Defined.
